(** * evalml: the delayed-feature transformer

    A shallow embedding of
    [evalml/pipelines/components/transformers/preprocessing/delayed_feature_transformer.py]
    together with the part of pandas it runs on: [Series.shift],
    [DataFrame.empty], [DataFrame.__getitem__], [DataFrame.__setitem__],
    [DataFrame.assign], dict comprehensions and [range].

    Tables carry the default positional index [0 .. n-1], as in the data
    model of the specification (rows ordered by time, target aligned by
    position).  A cell is [None] for the missing-value marker and [Some v]
    for a value. *)

From Stdlib Require Import ZArith String Ascii List Bool Lia.
From Stdlib Require Import DecimalString DecimalZ.
From Stdlib Require FinFun.
Import ListNotations.

Local Open Scope string_scope.
Local Open Scope list_scope.
Local Open Scope nat_scope.

(** ** Python: exceptions, [str], [range], insertion-ordered dicts *)

Inductive exn : Type :=
| KeyError (key : string)
| ValueError (msg : string)
| TypeError (msg : string).

Inductive result (A : Type) : Type :=
| Ok (a : A)
| Raise (e : exn).

Arguments Ok {A} a.
Arguments Raise {A} e.

Definition bind {A B : Type} (m : result A) (k : A -> result B) : result B :=
  match m with
  | Ok a => k a
  | Raise e => Raise e
  end.

Notation "x <- m ;; k" := (bind m (fun x => k))
  (at level 61, m at next level, right associativity).

(** A comprehension [[f x for x in xs]] whose body may raise. *)
Fixpoint mapM {A B : Type} (f : A -> result B) (xs : list A) : result (list B) :=
  match xs with
  | [] => Ok []
  | x :: xs' => y <- f x ;; ys <- mapM f xs' ;; Ok (y :: ys)
  end.

(** [str(t)] for a Python int. *)
Definition str (t : Z) : string := NilZero.string_of_int (Z.to_int t).

(** [range(lo, hi)]: empty when [hi <= lo]. *)
Definition range (lo hi : Z) : list Z :=
  map (fun i => lo + Z.of_nat i)%Z (seq 0 (Z.to_nat (hi - lo))).

(** [d[k] = v] on an insertion-ordered mapping: an existing key keeps its
    place and takes the new value, a new key goes to the end.  Python dicts
    and the column axis of a DataFrame both behave this way. *)
Fixpoint dict_set {V : Type} (d : list (string * V)) (k : string) (v : V)
  : list (string * V) :=
  match d with
  | [] => [(k, v)]
  | (k', v') :: d' =>
      if String.eqb k' k then (k', v) :: d' else (k', v') :: dict_set d' k v
  end.

Fixpoint dict_get {V : Type} (d : list (string * V)) (k : string) : option V :=
  match d with
  | [] => None
  | (k', v') :: d' => if String.eqb k' k then Some v' else dict_get d' k
  end.

Definition keys {V : Type} (d : list (string * V)) : list string := map fst d.

(** The dict built by [{key: value for ...}] from the pairs in evaluation
    order. *)
Definition py_dict {V : Type} (items : list (string * V)) : list (string * V) :=
  fold_left (fun d kv => dict_set d (fst kv) (snd kv)) items [].

(** ** pandas: Series and DataFrame *)

Definition cell : Type := option Z.
Definition NA : cell := None.

Definition Series : Type := list cell.

(** [s.shift(periods)]: same length, values moved [periods] places down
    (up when negative), the vacated places filled with the missing marker. *)
Definition shift (periods : Z) (s : Series) : Series :=
  if (0 <=? periods)%Z
  then firstn (length s) (repeat NA (Z.to_nat periods) ++ s)
  else skipn (Z.to_nat (- periods)) s
         ++ repeat NA (Nat.min (Z.to_nat (- periods)) (length s)).

Record DataFrame : Type := mkDataFrame {
  nrows : nat;                          (* len(df.index) *)
  columns : list (string * Series)      (* columns, left to right *)
}.

(** [pd.DataFrame()] *)
Definition empty_frame : DataFrame := mkDataFrame 0 [].

(** Every column has one cell per row, and column names are distinct. *)
Definition wf (X : DataFrame) : Prop :=
  NoDup (keys (columns X)) /\
  Forall (fun c => length (snd c) = nrows X) (columns X).

Definition wf_opt (X : option DataFrame) : Prop :=
  match X with
  | Some X => wf X
  | None => True
  end.

(** [df.empty]: some axis has length zero. *)
Definition df_empty (X : DataFrame) : bool :=
  (nrows X =? 0) || (length (columns X) =? 0).

(** [for col in X] iterates over the column labels. *)
Definition iter (X : DataFrame) : list string := keys (columns X).

(** [X[col]]: the column as a Series.  A missing label raises [KeyError];
    a label carried by several columns selects a sub-frame, which cannot be
    stored under a single new label: that run ends in [ValueError]. *)
Definition getitem (X : DataFrame) (col : string) : result Series :=
  match filter (fun c => String.eqb (fst c) col) (columns X) with
  | [] => Raise (KeyError col)
  | [c] => Ok (snd c)
  | _ => Raise (ValueError "Wrong number of items passed")
  end.

(** Alignment of a positionally indexed Series on a positional index of
    length [n]: labels past the Series are missing, labels past [n] are
    dropped. *)
Definition reindex (n : nat) (v : Series) : Series :=
  firstn n v ++ repeat NA (n - length v).

(** [DataFrame._ensure_valid_index]: a frame without rows takes the index
    of the first non-empty Series stored in it; the columns it already has
    are filled with the missing marker. *)
Definition ensure_valid_index (X : DataFrame) (v : Series) : DataFrame :=
  if (nrows X =? 0) && (0 <? length v)
  then mkDataFrame (length v)
         (map (fun c => (fst c, repeat NA (length v))) (columns X))
  else X.

(** [X[k] = v] *)
Definition setitem (X : DataFrame) (k : string) (v : Series) : DataFrame :=
  let X' := ensure_valid_index X v in
  mkDataFrame (nrows X') (dict_set (columns X') k (reindex (nrows X') v)).

(** [X.assign] with keyword arguments [kwargs]: the columns are stored one after the other, in
    the order of the dict, into a copy of [X]. *)
Definition assign (X : DataFrame) (kwargs : list (string * Series)) : DataFrame :=
  fold_left (fun data kv => setitem data (fst kv) (snd kv)) kwargs X.

(** ** Boundary with the tabular-data collaborator *)

(** Modelled from the spec: [_convert_to_woodwork_structure] of
    [evalml.utils.gen_utils] is not among the sources; section 6 describes
    it as the opaque "coerce to canonical table representation", which keeps
    rows, columns and values. *)
Definition _convert_to_woodwork_structure {A : Type} (data : A) : A := data.

(** Modelled from the spec: [_convert_woodwork_types_wrapper] of
    [evalml.utils.gen_utils] is not among the sources; section 6 describes
    it as the opaque "unwrap to native column-oriented structure". *)
Definition _convert_woodwork_types_wrapper {A : Type} (data : A) : A := data.

(** ** DelayedFeatureTransformer *)

Record DelayedFeatureTransformer : Type := mkTransformer {
  max_delay : Z;
  delay_features : bool;
  delay_target : bool;
  start_delay_for_target : Z;
  gap : Z;               (* kept in [parameters] only *)
  random_state : Z
}.

(** [__init__]: [int(gap == 0)] is the first target delay. *)
Definition init (max_delay : Z) (delay_features delay_target : bool)
    (gap random_state : Z) : DelayedFeatureTransformer :=
  mkTransformer max_delay delay_features delay_target
    (if (gap =? 0)%Z then 1%Z else 0%Z) gap random_state.

Definition feature_name (col : string) (t : Z) : string :=
  (col ++ "_delay_" ++ str t)%string.

Definition target_name (t : Z) : string :=
  ("target_delay_" ++ str t)%string.

(** The pairs of the first comprehension, [t] outermost. *)
Definition feature_items (self : DelayedFeatureTransformer) (X : DataFrame)
  : result (list (string * Series)) :=
  rows <- mapM (fun t =>
            mapM (fun col =>
                    s <- getitem X col ;;
                    Ok (feature_name col t, shift t s))
                 (iter X))
          (range 1 (max_delay self + 1)) ;;
  Ok (concat rows).

(** The pairs of the second comprehension. *)
Definition target_items (self : DelayedFeatureTransformer) (y : Series)
  : list (string * Series) :=
  map (fun t => (target_name t, shift t y))
      (range (start_delay_for_target self) (max_delay self + 1)).

Definition frame_of (X : option DataFrame) : DataFrame :=
  match X with
  | None => empty_frame
  | Some X => X
  end.

Definition delay_features_step (self : DelayedFeatureTransformer)
    (X : DataFrame) : result DataFrame :=
  if delay_features self && negb (df_empty X)
  then items <- feature_items self X ;; Ok (assign X (py_dict items))
  else Ok X.

Definition delay_target_step (self : DelayedFeatureTransformer)
    (X : DataFrame) (y : option Series) : DataFrame :=
  match y with
  | Some y' =>
      if delay_target self
      then assign X (py_dict (target_items self y'))
      else X
  | None => X
  end.

Definition transform (self : DelayedFeatureTransformer)
    (X : option DataFrame) (y : option Series) : result DataFrame :=
  let X := frame_of X in
  let X := _convert_to_woodwork_structure X in
  let X := _convert_woodwork_types_wrapper X in
  let y := option_map (fun y => _convert_woodwork_types_wrapper
                                  (_convert_to_woodwork_structure y)) y in
  X <- delay_features_step self X ;;
  let X := delay_target_step self X y in
  Ok (_convert_to_woodwork_structure X).

(** [fit] learns nothing: the transformer is returned as it is. *)
Definition fit (self : DelayedFeatureTransformer)
    (X : option DataFrame) (y : option Series) : DelayedFeatureTransformer :=
  self.

(** Reading the result. *)
Definition df_col (X : DataFrame) (name : string) : option Series :=
  dict_get (columns X) name.

Definition df_cell (X : DataFrame) (name : string) (i : nat) : option cell :=
  match df_col X name with
  | Some s => nth_error s i
  | None => None
  end.

Definition vals (l : list Z) : Series := map Some l.

(** ** Notions used in the statements *)

Definition underscore : ascii := "_"%char.

(** The pairs the first comprehension yields on a well-formed table. *)
Definition feature_pairs (self : DelayedFeatureTransformer) (X : DataFrame)
  : list (string * Series) :=
  flat_map (fun t => map (fun c => (feature_name (fst c) t, shift t (snd c)))
                         (columns X))
           (range 1 (max_delay self + 1)).

(** The table after the feature step. *)
Definition features_frame (self : DelayedFeatureTransformer) (X : DataFrame)
  : DataFrame :=
  if delay_features self && negb (df_empty X)
  then assign X (py_dict (feature_pairs self X))
  else X.

(** Whether the target step stores at least one column. *)
Definition target_columns_produced (self : DelayedFeatureTransformer)
    (y : option Series) : bool :=
  match y with
  | Some _ =>
      delay_target self && (start_delay_for_target self <=? max_delay self)%Z
  | None => false
  end.

(** Names the target step stores under. *)
Definition target_keys (self : DelayedFeatureTransformer) (y : option Series)
  : list string :=
  match y with
  | Some y' => if delay_target self then keys (target_items self y') else []
  | None => []
  end.

(** Names under which [transform] stores a column. *)
Definition assigned_names (self : DelayedFeatureTransformer) (X : DataFrame)
    (y : option Series) : list string :=
  (if delay_features self && negb (df_empty X)
   then keys (feature_pairs self X) else [])
  ++ target_keys self y.

(** Names the feature step can store under. *)
Definition feature_keys (self : DelayedFeatureTransformer) (X : DataFrame)
  : list string := keys (feature_pairs self X).

(** Row [i] of a column delayed by [t]. *)
Definition delayed_cell (s : Series) (t : Z) (i : nat) : option cell :=
  if (Z.of_nat i <? t)%Z then Some NA else nth_error s (i - Z.to_nat t).

(** * Objects, references and mutation

    [transform] receives references to a DataFrame and a Series that the
    caller still holds.  The model below keeps the objects in a store and
    distinguishes what pandas does in place ([__setitem__]) from what
    returns a new object ([pd.DataFrame()], [copy], and through it
    [assign]). *)

Inductive object : Type :=
| ODataFrame (X : DataFrame)
| OSeries (s : Series).

Definition ref : Type := nat.
Definition store : Type := list object.

(** A computation reads and writes the store and returns or raises; the
    store survives a raise. *)
Definition M (A : Type) : Type := store -> result A * store.

Definition ret {A : Type} (a : A) : M A := fun h => (Ok a, h).

Definition bindM {A B : Type} (m : M A) (k : A -> M B) : M B :=
  fun h =>
    match m h with
    | (Ok a, h') => k a h'
    | (Raise e, h') => (Raise e, h')
    end.

Notation "x <<- m ;; k" := (bindM m (fun x => k))
  (at level 61, m at next level, right associativity).

Definition lift {A : Type} (r : result A) : M A := fun h => (r, h).

Definition new (o : object) : M ref := fun h => (Ok (length h), h ++ [o]).

Fixpoint update (r : ref) (o : object) (h : store) : store :=
  match h, r with
  | [], _ => []
  | _ :: h', 0 => o :: h'
  | o' :: h', S r' => o' :: update r' o h'
  end.

Definition write (r : ref) (o : object) : M unit :=
  fun h => (Ok tt, update r o h).

Definition load_frame (r : ref) : M DataFrame :=
  fun h =>
    match nth_error h r with
    | Some (ODataFrame X) => (Ok X, h)
    | _ => (Raise (TypeError "not a DataFrame"), h)
    end.

Definition load_series (r : ref) : M Series :=
  fun h =>
    match nth_error h r with
    | Some (OSeries s) => (Ok s, h)
    | _ => (Raise (TypeError "not a Series"), h)
    end.

(** [X.copy()] *)
Definition df_copy (X : ref) : M ref :=
  Xv <<- load_frame X ;; new (ODataFrame Xv).

(** [data[k] = v], in place. *)
Definition df_setitem (data : ref) (k : string) (v : Series) : M unit :=
  Xv <<- load_frame data ;; write data (ODataFrame (setitem Xv k v)).

Fixpoint for_each {A : Type} (xs : list A) (body : A -> M unit) : M unit :=
  match xs with
  | [] => ret tt
  | x :: xs' => _ <<- body x ;; for_each xs' body
  end.

(** [X.assign]: [data = self.copy()], then [data[k] = v] for each keyword,
    then [return data]. *)
Definition df_assign (X : ref) (kwargs : list (string * Series)) : M ref :=
  data <<- df_copy X ;;
  _ <<- for_each kwargs (fun kv => df_setitem data (fst kv) (snd kv)) ;;
  ret data.

(** [transform] on references.  The boundary conversions hand back the
    object they are given (see above). *)
Definition transform_refs (self : DelayedFeatureTransformer)
    (X : option ref) (y : option ref) : M ref :=
  X <<- match X with
        | None => new (ODataFrame empty_frame)
        | Some X => ret X
        end ;;
  X <<- ret (_convert_to_woodwork_structure X) ;;
  Xv <<- load_frame X ;;
  y <<- ret (option_map (fun y => _convert_woodwork_types_wrapper
                                   (_convert_to_woodwork_structure y)) y) ;;
  X <<- (if delay_features self && negb (df_empty Xv)
         then items <<- lift (feature_items self Xv) ;;
              df_assign X (py_dict items)
         else ret X) ;;
  X <<- match y with
        | Some y' =>
            if delay_target self
            then yv <<- load_series y' ;;
                 df_assign X (py_dict (target_items self yv))
            else ret X
        | None => ret X
        end ;;
  ret (_convert_to_woodwork_structure X).

Definition frame_at (h : store) (X : option ref) (Xv : option DataFrame) : Prop :=
  match X, Xv with
  | None, None => True
  | Some r, Some v => nth_error h r = Some (ODataFrame v)
  | _, _ => False
  end.

Definition series_at (h : store) (y : option ref) (yv : option Series) : Prop :=
  match y, yv with
  | None, None => True
  | Some r, Some v => nth_error h r = Some (OSeries v)
  | _, _ => False
  end.

(** A computation that only appends to the store. *)
Definition appends {A : Type} (m : M A) : Prop :=
  forall h, exists l, snd (m h) = h ++ l.

(** The columns [transform] is meant to produce: those of [X], then the
    delayed features by increasing delay, then the delayed target by
    increasing delay. *)
Definition delayed_columns (self : DelayedFeatureTransformer) (X : DataFrame)
    (y : option Series) : list (string * Series) :=
  columns X
  ++ (if delay_features self && negb (df_empty X)
      then feature_pairs self X else [])
  ++ match y with
     | Some y' => if delay_target self then target_items self y' else []
     | None => []
     end.

(** Two Series of one length that read the same on rows [0 .. i]. *)
Definition same_upto (i : nat) (s s' : Series) : Prop :=
  length s = length s' /\
  forall j, j <= i -> nth_error s j = nth_error s' j.

Definition same_upto_opt (i : nat) (o o' : option Series) : Prop :=
  match o, o' with
  | Some s, Some s' => same_upto i s s'
  | None, None => True
  | _, _ => False
  end.

(** ** The recorded parameters *)

(** Values found in [parameters]. *)
Inductive pyval : Type :=
| PInt (z : Z)
| PBool (b : bool)
| PStr (s : string)
| PNone.

(** [d.update(other)] *)
Definition dict_update {V : Type} (d other : list (string * V))
  : list (string * V) :=
  fold_left (fun d kv => dict_set d (fst kv) (snd kv)) other d.

(** The dict [parameters] that [__init__] hands to the base class: the
    four named arguments, then [kwargs]. *)
Definition parameters (max_delay : Z) (delay_features delay_target : bool)
    (gap : Z) (kwargs : list (string * pyval)) : list (string * pyval) :=
  dict_update [("max_delay", PInt max_delay);
               ("delay_target", PBool delay_target);
               ("delay_features", PBool delay_features);
               ("gap", PInt gap)]
              kwargs.

(** The names the signature of [__init__] binds; a call cannot pass them
    through [kwargs]. *)
Definition named_arguments : list string :=
  ["max_delay"; "delay_features"; "delay_target"; "gap"; "random_state"].

Definition is_named (k : string) : bool :=
  existsb (String.eqb k) named_arguments.

(** [kwargs] as a call can build it: a dict whose keys are none of the
    named arguments. *)
Definition kwargs_ok (kwargs : list (string * pyval)) : Prop :=
  NoDup (keys kwargs) /\ forall k, In k (keys kwargs) -> is_named k = false.

(** An integer argument taken from a dict of keyword arguments, with the
    default of the signature; [None] when the entry is no integer. *)
Definition int_argument (kw : list (string * pyval)) (k : string) (default : Z)
  : option Z :=
  match dict_get kw k with
  | None => Some default
  | Some (PInt z) => Some z
  | Some _ => None
  end.

Definition bool_argument (kw : list (string * pyval)) (k : string)
    (default : bool) : option bool :=
  match dict_get kw k with
  | None => Some default
  | Some (PBool b) => Some b
  | Some _ => None
  end.

(** [DelayedFeatureTransformer(random_state=rs, **kw)]: the named entries of
    [kw] are bound to the arguments of [__init__] (defaults [max_delay=2],
    [delay_features=True], [delay_target=True], [gap=1]), the other entries
    go to [kwargs].  The result is the transformer and the [parameters] it
    records; [None] when the call raises or an entry has another type than
    the transformer takes. *)
Definition construct (kw : list (string * pyval)) (rs : Z)
  : option (DelayedFeatureTransformer * list (string * pyval)) :=
  match dict_get kw "random_state" with
  | Some _ => None        (* TypeError: multiple values for random_state *)
  | None =>
      match int_argument kw "max_delay" 2,
            bool_argument kw "delay_features" true,
            bool_argument kw "delay_target" true,
            int_argument kw "gap" 1 with
      | Some md, Some df, Some dt, Some g =>
          let kwargs := filter (fun kv => negb (is_named (fst kv))) kw in
          Some (init md df dt g rs, parameters md df dt g kwargs)
      | _, _, _, _ => None
      end
  end.

(** * Properties *)

(** ** Insertion-ordered dicts *)

Section Dict.
Context {V : Type}.
Implicit Types (d items : list (string * V)) (k : string) (v : V).

Lemma dict_get_set_same d k v : dict_get (dict_set d k v) k = Some v.
Proof.
  induction d as [|[k' v'] d IH]; simpl.
  - now rewrite String.eqb_refl.
  - destruct (String.eqb k' k) eqn:E; simpl; rewrite E; auto.
Qed.

Lemma dict_get_set_other d k v k' :
  k <> k' -> dict_get (dict_set d k v) k' = dict_get d k'.
Proof.
  intros Hne. induction d as [|[k0 v0] d IH]; simpl.
  - apply String.eqb_neq in Hne. now rewrite Hne.
  - destruct (String.eqb k0 k) eqn:E; simpl.
    + apply String.eqb_eq in E; subst k0.
      apply String.eqb_neq in Hne. now rewrite Hne.
    + now rewrite IH.
Qed.

Lemma dict_get_set d k v k' :
  dict_get (dict_set d k v) k' =
  if String.eqb k k' then Some v else dict_get d k'.
Proof.
  destruct (String.eqb k k') eqn:E.
  - apply String.eqb_eq in E; subst. apply dict_get_set_same.
  - apply String.eqb_neq in E. now apply dict_get_set_other.
Qed.

Lemma dict_get_None d k : dict_get d k = None <-> ~ In k (keys d).
Proof.
  induction d as [|[k' v'] d IH]; simpl.
  - tauto.
  - destruct (String.eqb k' k) eqn:E.
    + apply String.eqb_eq in E. split; [discriminate | tauto].
    + apply String.eqb_neq in E. tauto.
Qed.

Lemma dict_get_In d k v : dict_get d k = Some v -> In (k, v) d.
Proof.
  induction d as [|[k' v'] d IH]; simpl; [discriminate|].
  destruct (String.eqb k' k) eqn:E.
  - apply String.eqb_eq in E. intros [= ->]. left; congruence.
  - auto.
Qed.

(** With distinct keys, a pair of the dict is what its key reads. *)
Lemma In_dict_get d k v : NoDup (keys d) -> In (k, v) d -> dict_get d k = Some v.
Proof.
induction d as [|[k' v'] d IH]; simpl; [tauto|].
intros Hnd. inversion Hnd as [|? ? Hnin Hnd']; subst.
intros [E|Hin].
- injection E as -> ->. now rewrite String.eqb_refl.
- destruct (String.eqb_spec k' k) as [->|_]; auto.
  exfalso. apply Hnin. change k with (fst (k, v)). now apply in_map.
Qed.

Lemma dict_get_Some_key d k : In k (keys d) -> exists v, dict_get d k = Some v.
Proof.
  intros Hin. destruct (dict_get d k) eqn:E; eauto.
  apply dict_get_None in E. tauto.
Qed.

(** Storing under a key that is present keeps the keys; a new key is
    appended. *)
Lemma keys_dict_set_in d k v : In k (keys d) -> keys (dict_set d k v) = keys d.
Proof.
  induction d as [|[k' v'] d IH]; simpl; [tauto|].
  intros Hin. destruct (String.eqb k' k) eqn:E; simpl; auto.
  apply String.eqb_neq in E. f_equal. apply IH. tauto.
Qed.

Lemma keys_dict_set_new d k v :
  ~ In k (keys d) -> keys (dict_set d k v) = keys d ++ [k].
Proof.
  induction d as [|[k' v'] d IH]; simpl; auto.
  intros Hin. destruct (String.eqb k' k) eqn:E; simpl.
  - apply String.eqb_eq in E. tauto.
  - f_equal. apply IH. tauto.
Qed.

Lemma keys_dict_set_prefix d k v : exists l, keys (dict_set d k v) = keys d ++ l.
Proof.
  destruct (in_dec string_dec k (keys d)) as [Hin|Hin].
  - exists []. rewrite app_nil_r. now apply keys_dict_set_in.
  - exists [k]. now apply keys_dict_set_new.
Qed.

Lemma in_keys_dict_set d k v x :
  In x (keys (dict_set d k v)) <-> x = k \/ In x (keys d).
Proof.
  destruct (in_dec string_dec k (keys d)) as [Hin|Hin].
  - rewrite keys_dict_set_in by assumption. split; [tauto|].
    intros [->|]; auto.
  - rewrite keys_dict_set_new by assumption. rewrite in_app_iff. simpl.
    split; [intros [|[<-|[]]]; auto | intros [->|]; auto].
Qed.

Lemma NoDup_keys_dict_set d k v :
  NoDup (keys d) -> NoDup (keys (dict_set d k v)).
Proof.
  intros Hnd. destruct (in_dec string_dec k (keys d)) as [Hin|Hin].
  - now rewrite keys_dict_set_in.
  - rewrite keys_dict_set_new by assumption.
    apply NoDup_app; auto.
    + constructor; [simpl; tauto | constructor].
    + intros x Hx [<-|[]]. tauto.
Qed.

Lemma Forall_dict_set (P : string * V -> Prop) d k v :
  Forall P d -> (forall k', P (k', v)) -> Forall P (dict_set d k v).
Proof.
  intros Hd Hv. induction Hd as [|[k' v'] d Hp Hd IH]; simpl.
  - constructor; auto.
  - destruct (String.eqb k' k); constructor; auto.
Qed.

(** Reading the reversed pair list gives the value stored last. *)
Lemma dict_get_app d1 d2 k :
  dict_get (d1 ++ d2) k =
  match dict_get d1 k with
  | Some v => Some v
  | None => dict_get d2 k
  end.
Proof.
  induction d1 as [|[k' v'] d1 IH]; simpl; auto.
  destruct (String.eqb k' k); auto.
Qed.

Lemma dict_get_fold_set items d k :
  dict_get (fold_left (fun d kv => dict_set d (fst kv) (snd kv)) items d) k =
  match dict_get (rev items) k with
  | Some v => Some v
  | None => dict_get d k
  end.
Proof.
  revert d. induction items as [|[k' v'] items IH]; intro d; simpl; auto.
  rewrite IH, dict_get_app. destruct (dict_get (rev items) k); auto.
  simpl. rewrite dict_get_set. destruct (String.eqb k' k); auto.
Qed.

Lemma dict_get_py_dict items k :
  dict_get (py_dict items) k = dict_get (rev items) k.
Proof.
  unfold py_dict. rewrite dict_get_fold_set.
  destruct (dict_get (rev items) k); auto.
Qed.

Lemma NoDup_keys_fold_set items d :
  NoDup (keys d) ->
  NoDup (keys (fold_left (fun d kv => dict_set d (fst kv) (snd kv)) items d)).
Proof.
  revert d. induction items as [|[k v] items IH]; intros d Hd; simpl; auto.
  apply IH. now apply NoDup_keys_dict_set.
Qed.

Lemma NoDup_keys_py_dict items : NoDup (keys (py_dict items)).
Proof. apply NoDup_keys_fold_set. constructor. Qed.

Lemma in_keys_fold_set items d x :
  In x (keys (fold_left (fun d kv => dict_set d (fst kv) (snd kv)) items d))
  <-> In x (keys items) \/ In x (keys d).
Proof.
  revert d. induction items as [|[k v] items IH]; intro d; simpl.
  - tauto.
  - rewrite IH, in_keys_dict_set. intuition congruence.
Qed.

Lemma in_keys_py_dict items x : In x (keys (py_dict items)) <-> In x (keys items).
Proof. unfold py_dict. rewrite in_keys_fold_set. simpl. tauto. Qed.

Lemma Forall_fold_set (P : V -> Prop) items d :
  Forall (fun kv => P (snd kv)) d ->
  Forall (fun kv => P (snd kv)) items ->
  Forall (fun kv => P (snd kv))
         (fold_left (fun d kv => dict_set d (fst kv) (snd kv)) items d).
Proof.
  revert d. induction items as [|[k v] items IH]; intros d Hd Hi; simpl; auto.
  inversion Hi; subst. apply IH; auto.
  apply Forall_dict_set; auto.
Qed.

Lemma Forall_py_dict (P : V -> Prop) items :
  Forall (fun kv => P (snd kv)) items ->
  Forall (fun kv => P (snd kv)) (py_dict items).
Proof. intros. apply Forall_fold_set; auto. Qed.

Lemma py_dict_nil items : py_dict items = [] <-> items = [].
Proof.
  split; [|intros ->; reflexivity].
  destruct items as [|[k v] items]; auto. intros E. exfalso.
  assert (Hin : In k (keys (py_dict ((k, v) :: items)))).
  { apply in_keys_py_dict. simpl. auto. }
  rewrite E in Hin. inversion Hin.
Qed.

Lemma dict_get_rev d k : NoDup (keys d) -> dict_get (rev d) k = dict_get d k.
Proof.
  induction d as [|[k' v'] d IH]; simpl; auto.
  intros Hnd. inversion Hnd as [|? ? Hnin Hnd']; subst.
  rewrite dict_get_app, IH by assumption. simpl.
  destruct (String.eqb k' k) eqn:E.
  - apply String.eqb_eq in E; subst k'.
    apply dict_get_None in Hnin. now rewrite Hnin.
  - destruct (dict_get d k); auto.
Qed.

Lemma keys_rev d k : In k (keys (rev d)) <-> In k (keys d).
Proof. unfold keys. rewrite map_rev. symmetry. apply in_rev. Qed.

Lemma dict_get_rev_py_dict items k :
dict_get (rev (py_dict items)) k = dict_get (rev items) k.
Proof.
rewrite dict_get_rev by apply NoDup_keys_py_dict. apply dict_get_py_dict.
Qed.

(** When every pair under [k] carries [v], and there is one, [k] reads [v]. *)
Lemma dict_get_all_same d k v :
  In k (keys d) -> (forall v', In (k, v') d -> v' = v) -> dict_get d k = Some v.
Proof.
  intros Hin Hall. destruct (dict_get_Some_key d k Hin) as [v' Hv'].
  rewrite Hv'. f_equal. apply Hall. now apply dict_get_In.
Qed.
End Dict.

(** ** [range] *)

Lemma in_range lo hi t : In t (range lo hi) <-> (lo <= t < hi)%Z.
Proof.
  unfold range. rewrite in_map_iff. split.
  - intros (i & <- & Hi). apply in_seq in Hi. lia.
  - intros Ht. exists (Z.to_nat (t - lo)). split; [lia|].
    apply in_seq. lia.
Qed.

Lemma range_nil lo hi : (hi <= lo)%Z -> range lo hi = [].
Proof.
  intros H. unfold range. replace (Z.to_nat (hi - lo)) with 0 by lia. reflexivity.
Qed.

Lemma range_not_nil lo hi : (lo < hi)%Z -> range lo hi <> [].
Proof.
  intros H E. assert (Hin : In lo (range lo hi)) by (apply in_range; lia).
  rewrite E in Hin. inversion Hin.
Qed.

(** ** Series: [shift] and [reindex] *)

Lemma length_shift t (s : Series) : length (shift t s) = length s.
Proof.
  unfold shift. destruct (0 <=? t)%Z.
  - rewrite length_firstn, length_app, repeat_length. lia.
  - rewrite length_app, length_skipn, repeat_length. lia.
Qed.

Lemma shift_0 (s : Series) : shift 0 s = s.
Proof. unfold shift. simpl. apply firstn_all. Qed.

(** Row [i] of a Series delayed by [t >= 0]: missing for the first [t]
    rows, the value of row [i - t] afterwards. *)
Lemma nth_error_shift t (s : Series) i :
  (0 <= t)%Z -> i < length s ->
  nth_error (shift t s) i =
  if i <? Z.to_nat t then Some NA else nth_error s (i - Z.to_nat t).
Proof.
  intros Ht Hi. unfold shift.
  destruct (Z.leb_spec 0 t) as [_|]; [|lia].
  rewrite nth_error_firstn.
  destruct (Nat.ltb_spec i (length s)) as [_|]; [|lia].
  destruct (Nat.ltb_spec i (Z.to_nat t)) as [Hlt|Hge].
  - rewrite nth_error_app1 by (rewrite repeat_length; lia).
    now apply nth_error_repeat.
  - rewrite nth_error_app2 by (rewrite repeat_length; lia).
    now rewrite repeat_length.
Qed.

Lemma length_reindex n (v : Series) : length (reindex n v) = n.
Proof.
  unfold reindex. rewrite length_app, length_firstn, repeat_length. lia.
Qed.

Lemma reindex_same n (v : Series) : length v = n -> reindex n v = v.
Proof.
  intros <-. unfold reindex.
  rewrite firstn_all, Nat.sub_diag. apply app_nil_r.
Qed.

Lemma reindex_idem n (v : Series) : reindex n (reindex n v) = reindex n v.
Proof. apply reindex_same, length_reindex. Qed.

Lemma reindex_nil n : reindex n [] = repeat NA n.
Proof. unfold reindex. rewrite firstn_nil. simpl. now rewrite Nat.sub_0_r. Qed.

Lemma reindex_repeat n : reindex n (repeat NA n) = repeat NA n.
Proof. apply reindex_same, repeat_length. Qed.

(** On the rows it shares with the Series, an aligned column reads the
    Series; past the Series it is missing. *)
Lemma nth_error_reindex n (v : Series) i :
  i < n ->
  nth_error (reindex n v) i =
  if i <? length v then nth_error v i else Some NA.
Proof.
  intros Hi. unfold reindex.
  destruct (Nat.ltb_spec i (length v)) as [Hlt|Hge].
  - rewrite nth_error_app1 by (rewrite length_firstn; lia).
    rewrite nth_error_firstn.
    destruct (Nat.ltb_spec i n); [reflexivity | lia].
  - rewrite nth_error_app2 by (rewrite length_firstn; lia).
    apply nth_error_repeat. rewrite length_firstn. lia.
Qed.

(** ** Generated column names *)

Lemma list_ascii_of_string_app (s1 s2 : string) :
  list_ascii_of_string (s1 ++ s2)%string =
  list_ascii_of_string s1 ++ list_ascii_of_string s2.
Proof. induction s1 as [|a s1 IH]; simpl; congruence. Qed.

Lemma list_ascii_of_string_inj (s1 s2 : string) :
  list_ascii_of_string s1 = list_ascii_of_string s2 -> s1 = s2.
Proof.
  intros E. rewrite <- (string_of_list_ascii_of_string s1),
              <- (string_of_list_ascii_of_string s2). now rewrite E.
Qed.

Lemma uint_no_underscore (d : Decimal.uint) :
  ~ In underscore (list_ascii_of_string (NilEmpty.string_of_uint d)).
Proof.
  induction d; simpl; try tauto;
    (intros [E|H]; [discriminate E | exact (IHd H)]).
Qed.

Lemma str_no_underscore t : ~ In underscore (list_ascii_of_string (str t)).
Proof.
  unfold str, NilZero.string_of_int.
  destruct (Z.to_int t) as [d|d]; unfold NilZero.string_of_uint.
  - destruct d; try apply uint_no_underscore.
    simpl. intros [E|[]]. discriminate E.
  - simpl. intros [E|H]; [discriminate E|].
    revert H. destruct d; try apply uint_no_underscore.
    simpl. intros [E|[]]. discriminate E.
Qed.

Lemma to_int_not_nil t :
  Z.to_int t <> Decimal.Pos Decimal.Nil /\ Z.to_int t <> Decimal.Neg Decimal.Nil.
Proof.
  assert (E : Decimal.norm (Z.to_int t) = Z.to_int t).
  { rewrite <- (DecimalZ.to_of (Z.to_int t)). now rewrite DecimalZ.of_to. }
  split; intros H; rewrite H in E; discriminate E.
Qed.

Lemma str_inj t1 t2 : str t1 = str t2 -> t1 = t2.
Proof.
  unfold str. intros E. apply DecimalZ.to_int_inj.
  destruct (to_int_not_nil t1) as [Hp1 Hn1], (to_int_not_nil t2) as [Hp2 Hn2].
  pose proof (NilZero.isi _ Hp1 Hn1) as E1.
  pose proof (NilZero.isi _ Hp2 Hn2) as E2.
  rewrite E in E1. congruence.
Qed.

(** Two lists that end in an underscore followed by underscore-free tails
    agree piecewise. *)
Lemma split_at_last_underscore (p1 p2 s1 s2 : list ascii) :
  ~ In underscore s1 -> ~ In underscore s2 ->
  (p1 ++ [underscore]) ++ s1 = (p2 ++ [underscore]) ++ s2 ->
  p1 = p2 /\ s1 = s2.
Proof.
  intros H1 H2 E.
  apply app_eq_app in E. destruct E as (l & [[E1 E2]|[E1 E2]]).
  - destruct l as [|a l] using rev_ind.
    + rewrite app_nil_r in E1. simpl in E2. subst s2.
      apply app_inj_tail in E1. tauto.
    + rewrite app_assoc in E1. apply app_inj_tail in E1.
      destruct E1 as [_ <-]. exfalso. apply H2. subst s2.
      rewrite !in_app_iff. simpl. tauto.
  - destruct l as [|a l] using rev_ind.
    + rewrite app_nil_r in E1. simpl in E2. subst s1.
      apply app_inj_tail in E1. destruct E1 as [-> _]. tauto.
    + rewrite app_assoc in E1. apply app_inj_tail in E1.
      destruct E1 as [_ <-]. exfalso. apply H1. subst s1.
      rewrite !in_app_iff. simpl. tauto.
Qed.

(** A feature-delay name determines its column and its delay. *)
Lemma feature_name_inj c1 t1 c2 t2 :
  feature_name c1 t1 = feature_name c2 t2 -> c1 = c2 /\ t1 = t2.
Proof.
  unfold feature_name. intros E.
  apply (f_equal list_ascii_of_string) in E.
  rewrite !list_ascii_of_string_app in E.
  change (list_ascii_of_string "_delay_")
    with (list_ascii_of_string "_delay" ++ [underscore]) in E.
  rewrite !app_assoc in E.
  apply split_at_last_underscore in E; try apply str_no_underscore.
  destruct E as [E1 E2].
  apply app_inv_tail in E1.
  split.
  - now apply list_ascii_of_string_inj.
  - now apply str_inj, list_ascii_of_string_inj.
Qed.

Lemma target_name_feature : forall t, target_name t = feature_name "target" t.
Proof. reflexivity. Qed.

Lemma target_name_inj t1 t2 : target_name t1 = target_name t2 -> t1 = t2.
Proof. intros E. exact (proj2 (feature_name_inj "target" t1 "target" t2 E)). Qed.

(** The only feature column whose delay names meet the target's is the one
    called [target]. *)
Lemma feature_target_collision c t t' :
  feature_name c t = target_name t' <-> c = "target" /\ t = t'.
Proof.
  split.
  - exact (feature_name_inj c t "target" t').
  - intros [-> ->]. reflexivity.
Qed.

(** ** DataFrame: [__setitem__] and [assign] *)

Lemma wf_empty_frame : wf empty_frame.
Proof. split; constructor. Qed.

Lemma wf_col_length X c s : wf X -> df_col X c = Some s -> length s = nrows X.
Proof.
  intros [_ Hlen] Hc. apply dict_get_In in Hc.
  rewrite Forall_forall in Hlen. exact (Hlen _ Hc).
Qed.

Lemma keys_map_fill {V W : Type} (f : string * V -> W) (d : list (string * V)) :
  keys (map (fun c => (fst c, f c)) d) = keys d.
Proof. unfold keys. rewrite map_map. reflexivity. Qed.

Lemma dict_get_map_fill {V W : Type} (f : string * V -> W) (d : list (string * V)) k :
  dict_get (map (fun c => (fst c, f c)) d) k =
  match dict_get d k with
  | Some v => Some (f (k, v))
  | None => None
  end.
Proof.
  induction d as [|[k' v'] d IH]; simpl; auto.
  destruct (String.eqb k' k) eqn:E; auto.
  apply String.eqb_eq in E. now subst.
Qed.

Lemma nrows_ensure_valid_index X v :
  nrows (ensure_valid_index X v) =
  if (nrows X =? 0) && (0 <? length v) then length v else nrows X.
Proof. unfold ensure_valid_index. destruct (_ && _); reflexivity. Qed.

Lemma keys_ensure_valid_index X v :
  keys (columns (ensure_valid_index X v)) = keys (columns X).
Proof.
  unfold ensure_valid_index. destruct (_ && _); auto.
  simpl. apply (keys_map_fill (fun _ => repeat NA (length v))).
Qed.

Lemma wf_ensure_valid_index X v : wf X -> wf (ensure_valid_index X v).
Proof.
  intros [Hnd Hlen]. split.
  - now rewrite keys_ensure_valid_index.
  - unfold ensure_valid_index. destruct (_ && _); auto.
    simpl. apply Forall_map, Forall_forall. intros c _. simpl.
    apply repeat_length.
Qed.

(** A frame that still has no rows after [_ensure_valid_index] was given
    an empty Series. *)
Lemma ensure_valid_index_0 X v :
  nrows (ensure_valid_index X v) = 0 -> v = [] /\ ensure_valid_index X v = X.
Proof.
  unfold ensure_valid_index.
  destruct (Nat.eqb_spec (nrows X) 0) as [E0|]; simpl; [|tauto].
  destruct v as [|a v]; simpl; [tauto | discriminate].
Qed.

Lemma df_col_ensure_valid_index X v k :
  wf X ->
  df_col (ensure_valid_index X v) k =
  option_map (reindex (nrows (ensure_valid_index X v))) (df_col X k).
Proof.
  intros HX. unfold df_col, ensure_valid_index.
  destruct (Nat.eqb_spec (nrows X) 0) as [E0|]; simpl.
  - destruct (Nat.ltb_spec 0 (length v)); simpl.
    + rewrite (dict_get_map_fill (fun _ => repeat NA (length v))).
      destruct (dict_get (columns X) k) as [s|] eqn:Es; simpl; auto.
      assert (Hs : length s = 0) by (rewrite <- E0; eapply wf_col_length; eauto).
      destruct s; [|discriminate]. now rewrite reindex_nil.
    + destruct (dict_get (columns X) k) as [s|] eqn:Es; simpl; auto.
      f_equal. symmetry. apply reindex_same. eapply wf_col_length; eauto.
  - destruct (dict_get (columns X) k) as [s|] eqn:Es; simpl; auto.
    f_equal. symmetry. apply reindex_same. eapply wf_col_length; eauto.
Qed.

Lemma nrows_setitem X k v :
  nrows (setitem X k v) =
  if (nrows X =? 0) && (0 <? length v) then length v else nrows X.
Proof. unfold setitem. simpl. apply nrows_ensure_valid_index. Qed.

Lemma nrows_setitem_pos X k v : 0 < nrows X -> nrows (setitem X k v) = nrows X.
Proof.
  intros H. rewrite nrows_setitem.
  destruct (Nat.eqb_spec (nrows X) 0); [lia | reflexivity].
Qed.

Lemma wf_setitem X k v : wf X -> wf (setitem X k v).
Proof.
  intros HX. apply (wf_ensure_valid_index X v) in HX.
  destruct HX as [Hnd Hlen]. split; simpl.
  - now apply NoDup_keys_dict_set.
  - apply Forall_dict_set; auto.
    intros k0. simpl. apply length_reindex.
Qed.

Lemma in_keys_setitem X k v x :
  In x (keys (columns (setitem X k v))) <-> x = k \/ In x (keys (columns X)).
Proof.
  unfold setitem. simpl. now rewrite in_keys_dict_set, keys_ensure_valid_index.
Qed.

Lemma keys_setitem_prefix X k v :
  exists l, keys (columns (setitem X k v)) = keys (columns X) ++ l.
Proof.
  unfold setitem. simpl.
  destruct (keys_dict_set_prefix (columns (ensure_valid_index X v)) k
              (reindex (nrows (ensure_valid_index X v)) v)) as [l Hl].
  exists l. now rewrite Hl, keys_ensure_valid_index.
Qed.

Lemma df_col_setitem X k v k' :
  wf X ->
  df_col (setitem X k v) k' =
  if String.eqb k k'
  then Some (reindex (nrows (setitem X k v)) v)
  else option_map (reindex (nrows (setitem X k v))) (df_col X k').
Proof.
  intros HX. unfold df_col at 1. unfold setitem at 1. simpl.
  rewrite dict_get_set. destruct (String.eqb k k'); auto.
  now apply df_col_ensure_valid_index.
Qed.

Lemma wf_assign kwargs : forall X, wf X -> wf (assign X kwargs).
Proof.
  induction kwargs as [|[k v] kwargs IH]; intros X HX; simpl; auto.
  apply IH. now apply wf_setitem.
Qed.

Lemma assign_cons X k v kwargs :
  assign X ((k, v) :: kwargs) = assign (setitem X k v) kwargs.
Proof. reflexivity. Qed.

(** A frame with rows keeps its index through [assign]. *)
Lemma nrows_assign_pos kwargs :
  forall X, 0 < nrows X -> nrows (assign X kwargs) = nrows X.
Proof.
  induction kwargs as [|[k v] kwargs IH]; intros X HX; auto.
  rewrite assign_cons, IH; rewrite nrows_setitem_pos; auto.
Qed.

(** A frame without rows takes the length of the Series stored in it. *)
Lemma nrows_assign_0 kwargs m :
  Forall (fun kv => length (snd kv) = m) kwargs -> kwargs <> [] ->
  forall X, nrows X = 0 -> nrows (assign X kwargs) = m.
Proof.
  intros Hlen. induction Hlen as [|[k v] kwargs Hv Hlen IH]; [congruence|].
  intros _ X HX. rewrite assign_cons. simpl in Hv.
  assert (E : nrows (setitem X k v) = m).
  { rewrite nrows_setitem, HX. simpl. destruct v; simpl in *; auto. }
  destruct m as [|m].
  - destruct kwargs as [|kv kwargs]; [exact E|].
    apply IH; [discriminate | exact E].
  - rewrite nrows_assign_pos; lia.
Qed.

Lemma in_keys_assign kwargs x :
  forall X, In x (keys (columns (assign X kwargs)))
            <-> In x (keys (columns X)) \/ In x (keys kwargs).
Proof.
  induction kwargs as [|[k v] kwargs IH]; intros X; simpl.
  - tauto.
  - rewrite IH, in_keys_setitem. intuition congruence.
Qed.

(** The columns [X] came with stay leftmost, in their order. *)
Lemma keys_assign_prefix kwargs :
  forall X, exists l, keys (columns (assign X kwargs)) = keys (columns X) ++ l.
Proof.
  induction kwargs as [|[k v] kwargs IH]; intros X.
  - exists []. simpl. now rewrite app_nil_r.
  - rewrite assign_cons. destruct (IH (setitem X k v)) as [l Hl].
    destruct (keys_setitem_prefix X k v) as [l' Hl'].
    exists (l' ++ l). now rewrite Hl, Hl', app_assoc.
Qed.

(** After [assign], a keyword's column holds the Series passed last under
    that keyword, every other column is the one [X] had; both aligned on the
    index of the result. *)
Lemma df_col_assign kwargs k :
  forall X, wf X ->
  df_col (assign X kwargs) k =
  match dict_get (rev kwargs) k with
  | Some v => Some (reindex (nrows (assign X kwargs)) v)
  | None => option_map (reindex (nrows (assign X kwargs))) (df_col X k)
  end.
Proof.
  induction kwargs as [|[k0 v0] kwargs IH]; intros X HX.
  - simpl. destruct (df_col X k) as [s|] eqn:Es; simpl; auto.
    f_equal. symmetry. apply reindex_same. eapply wf_col_length; eauto.
  - rewrite assign_cons, IH by now apply wf_setitem.
    simpl rev. rewrite dict_get_app.
    destruct (dict_get (rev kwargs) k) as [v|]; auto.
    simpl dict_get. rewrite df_col_setitem by assumption.
    set (N := nrows (assign (setitem X k0 v0) kwargs)).
    set (N' := nrows (setitem X k0 v0)).
    assert (HN : N' = N \/ (N' = 0 /\ v0 = [] /\ nrows X = 0)).
    { destruct (Nat.eq_dec N' 0) as [E0|Hpos].
      - right. split; auto. unfold N', setitem in E0. simpl in E0.
        destruct (ensure_valid_index_0 X v0 E0) as [-> EX].
        split; auto. now rewrite EX in E0.
      - left. unfold N. rewrite nrows_assign_pos; fold N'; lia. }
    destruct (String.eqb k0 k); simpl.
    + f_equal. destruct HN as [->|(-> & -> & _)].
      * apply reindex_idem.
      * reflexivity.
    + destruct (df_col X k) as [s|] eqn:Es; simpl; auto. f_equal.
      destruct HN as [->|(-> & _ & E0)].
      * apply reindex_idem.
      * assert (Hs : length s = 0) by (rewrite <- E0; eapply wf_col_length; eauto).
        destruct s; [reflexivity | discriminate].
Qed.

(** ** The two comprehensions *)

Lemma mapM_map_ok {A B C : Type} (f : B -> result C) (p : A -> B) (h : A -> C) xs :
  (forall x, In x xs -> f (p x) = Ok (h x)) ->
  mapM f (map p xs) = Ok (map h xs).
Proof.
  induction xs as [|x xs IH]; intros H; simpl; auto.
  rewrite (H x) by (simpl; auto). simpl.
  rewrite IH by (intros; apply H; simpl; auto). reflexivity.
Qed.

Lemma in_iter_col X c : In c (iter X) -> exists s, df_col X c = Some s.
Proof. apply dict_get_Some_key. Qed.

Lemma df_col_in_iter X c s : df_col X c = Some s -> In c (iter X).
Proof.
  intros H. apply dict_get_In in H. unfold iter, keys.
  change c with (fst (c, s)). now apply in_map.
Qed.

Lemma filter_absent (d : list (string * Series)) c :
  ~ In c (keys d) -> filter (fun x => String.eqb (fst x) c) d = [].
Proof.
  induction d as [|[k v] d IH]; simpl; auto.
  intros H. destruct (String.eqb_spec k c); [tauto | apply IH; tauto].
Qed.

(** With distinct labels [X[col]] is the one column under that label. *)
Lemma getitem_ok X c s : wf X -> df_col X c = Some s -> getitem X c = Ok s.
Proof.
  intros [Hnd _]. unfold getitem, df_col.
  induction (columns X) as [|[k v] d IH]; simpl; [discriminate|].
  inversion Hnd as [|? ? Hnin Hnd']; subst.
  destruct (String.eqb_spec k c) as [->|Hne].
  - intros [= ->]. now rewrite filter_absent.
  - auto.
Qed.

Lemma feature_items_ok self X :
  wf X -> feature_items self X = Ok (feature_pairs self X).
Proof.
  intros HX. unfold feature_items, feature_pairs.
  rewrite flat_map_concat_map.
  rewrite <- (map_id (range 1 (max_delay self + 1))) at 1.
  rewrite (mapM_map_ok _ (fun t => t)
             (fun t => map (fun c => (feature_name (fst c) t, shift t (snd c)))
                           (columns X))); [reflexivity|].
  intros t _. unfold iter, keys. apply mapM_map_ok.
  intros [k v] Hin. simpl.
  assert (E : df_col X k = Some v).
  { apply In_dict_get; [apply HX | exact Hin]. }
  now rewrite (getitem_ok X k v HX E).
Qed.

Lemma in_feature_pairs self X k v :
  In (k, v) (feature_pairs self X) <->
  exists c s t, In (c, s) (columns X) /\ (1 <= t <= max_delay self)%Z /\
                k = feature_name c t /\ v = shift t s.
Proof.
  unfold feature_pairs. rewrite in_flat_map. split.
  - intros (t & Ht & Hin). apply in_range in Ht.
    apply in_map_iff in Hin. destruct Hin as ([c s] & E & Hin).
    injection E as <- <-. exists c, s, t. repeat split; auto; lia.
  - intros (c & s & t & Hin & Ht & -> & ->). exists t. split.
    + apply in_range. lia.
    + apply in_map_iff. now exists (c, s).
Qed.

Lemma in_keys_feature_pairs self X k :
  In k (keys (feature_pairs self X)) <->
  exists c t, In c (iter X) /\ (1 <= t <= max_delay self)%Z /\
              k = feature_name c t.
Proof.
  unfold keys at 1. rewrite in_map_iff. split.
  - intros ([k' v] & <- & Hin). apply in_feature_pairs in Hin.
    destruct Hin as (c & s & t & Hin & Ht & -> & _). exists c, t.
    repeat split; try lia. unfold iter, keys. change c with (fst (c, s)).
    now apply in_map.
  - intros (c & t & Hc & Ht & ->). unfold iter, keys in Hc.
    apply in_map_iff in Hc. destruct Hc as ([c' s] & <- & Hin).
    exists (feature_name c' t, shift t s). split; auto.
    apply in_feature_pairs. exists c', s, t. auto.
Qed.

(** The comprehension maps [c_delay_t] to column [c] delayed by [t]. *)
Lemma feature_pairs_get self X c s t :
  wf X -> df_col X c = Some s -> (1 <= t <= max_delay self)%Z ->
  dict_get (rev (feature_pairs self X)) (feature_name c t) = Some (shift t s).
Proof.
  intros HX Hc Ht. apply dict_get_all_same.
  - apply keys_rev, in_keys_feature_pairs. exists c, t.
    repeat split; try lia. eapply df_col_in_iter; eauto.
  - intros v Hv. apply in_rev, in_feature_pairs in Hv.
    destruct Hv as (c' & s' & t' & Hin & _ & E & ->).
    apply feature_name_inj in E. destruct E as [<- <-]. f_equal.
    assert (E : df_col X c = Some s').
    { apply In_dict_get; [apply HX | exact Hin]. }
    congruence.
Qed.

Lemma in_target_items self y k v :
  In (k, v) (target_items self y) <->
  exists t, (start_delay_for_target self <= t <= max_delay self)%Z /\
            k = target_name t /\ v = shift t y.
Proof.
  unfold target_items. rewrite in_map_iff. split.
  - intros (t & E & Ht). apply in_range in Ht. injection E as <- <-.
    exists t. repeat split; auto; lia.
  - intros (t & Ht & -> & ->). exists t. split; auto. apply in_range. lia.
Qed.

Lemma in_keys_target_items self y k :
  In k (keys (target_items self y)) <->
  exists t, (start_delay_for_target self <= t <= max_delay self)%Z /\
            k = target_name t.
Proof.
  unfold keys. rewrite in_map_iff. split.
  - intros ([k' v] & <- & Hin). apply in_target_items in Hin.
    destruct Hin as (t & Ht & -> & _). eauto.
  - intros (t & Ht & ->). exists (target_name t, shift t y). split; auto.
    apply in_target_items. eauto.
Qed.

(** The second comprehension maps [target_delay_t] to [y] delayed by [t]. *)
Lemma target_items_get self y t :
  (start_delay_for_target self <= t <= max_delay self)%Z ->
  dict_get (rev (target_items self y)) (target_name t) = Some (shift t y).
Proof.
  intros Ht. apply dict_get_all_same.
  - apply keys_rev, in_keys_target_items. eauto.
  - intros v Hv. apply in_rev, in_target_items in Hv.
    destruct Hv as (t' & _ & E & ->). apply target_name_inj in E. now subst.
Qed.

Lemma target_items_length self y :
  Forall (fun kv => length (snd kv) = length y) (target_items self y).
Proof.
  apply Forall_forall. intros [k v] Hin. apply in_target_items in Hin.
  destruct Hin as (t & _ & _ & ->). simpl. apply length_shift.
Qed.

Lemma target_items_nil self y :
  target_items self y = [] <-> (max_delay self < start_delay_for_target self)%Z.
Proof.
  unfold target_items. split.
  - intros E. apply map_eq_nil in E.
    destruct (Z_lt_le_dec (max_delay self) (start_delay_for_target self)); auto.
    exfalso. revert E. apply range_not_nil. lia.
  - intros H. rewrite range_nil by lia. reflexivity.
Qed.

(** ** [transform] on well-formed tables *)

Lemma delay_features_step_ok self X :
  wf X -> delay_features_step self X = Ok (features_frame self X).
Proof.
  intros HX. unfold delay_features_step, features_frame.
  destruct (_ && _); auto. now rewrite feature_items_ok.
Qed.

(** [transform] returns on every well-formed table. *)
Lemma transform_ok self X y :
  wf_opt X ->
  transform self X y =
  Ok (delay_target_step self (features_frame self (frame_of X)) y).
Proof.
  intros HX. unfold transform, _convert_to_woodwork_structure,
    _convert_woodwork_types_wrapper.
  assert (H0 : wf (frame_of X)).
  { destruct X; [exact HX | exact wf_empty_frame]. }
  rewrite delay_features_step_ok by assumption. simpl.
  destruct y; reflexivity.
Qed.

Lemma df_empty_false X : df_empty X = false -> 0 < nrows X /\ columns X <> [].
Proof.
  unfold df_empty. intros H. apply orb_false_elim in H. destruct H as [H1 H2].
  apply Nat.eqb_neq in H1. apply Nat.eqb_neq in H2. split; [lia|].
  intros E. rewrite E in H2. auto.
Qed.

Lemma wf_features_frame self X : wf X -> wf (features_frame self X).
Proof.
  intros HX. unfold features_frame. destruct (_ && _); auto.
  now apply wf_assign.
Qed.

Lemma wf_delay_target_step self X y : wf X -> wf (delay_target_step self X y).
Proof.
  intros HX. unfold delay_target_step. destruct y; auto.
  destruct (delay_target self); auto. now apply wf_assign.
Qed.

(** The feature step never changes the number of rows. *)
Lemma nrows_features_frame self X : nrows (features_frame self X) = nrows X.
Proof.
  unfold features_frame.
  destruct (delay_features self); simpl; auto.
  destruct (df_empty X) eqn:E; simpl; auto.
  apply nrows_assign_pos. now apply df_empty_false in E.
Qed.

Lemma delay_target_step_skip self X y :
  target_columns_produced self y = false -> delay_target_step self X y = X.
Proof.
  unfold target_columns_produced, delay_target_step.
  destruct y as [y|]; auto. destruct (delay_target self); auto. simpl.
  intros H. apply Z.leb_gt in H.
  now rewrite (proj2 (target_items_nil self y)).
Qed.

Lemma delay_target_step_run self X y :
  target_columns_produced self (Some y) = true ->
  delay_target_step self X (Some y) = assign X (py_dict (target_items self y))
  /\ py_dict (target_items self y) <> [].
Proof.
  unfold target_columns_produced, delay_target_step. intros H.
  apply andb_true_iff in H. destruct H as [-> H]. apply Z.leb_le in H.
  split; auto. rewrite py_dict_nil, target_items_nil. lia.
Qed.

(** Rows of the result: those of [X] when it has any; otherwise those of
    [y] as soon as one target column is stored. *)
Lemma nrows_delay_target_step self X y :
  nrows (delay_target_step self X y) =
  if 0 <? nrows X then nrows X
  else match y with
       | Some y' => if target_columns_produced self y then length y' else 0
       | None => 0
       end.
Proof.
  destruct (Nat.ltb_spec 0 (nrows X)) as [Hpos|H0].
  - unfold delay_target_step. destruct y; auto.
    destruct (delay_target self); auto. now apply nrows_assign_pos.
  - destruct (target_columns_produced self y) eqn:E.
    + destruct y as [y|]; [|discriminate].
      destruct (delay_target_step_run self X y E) as [-> Hne].
      apply nrows_assign_0; auto; [|lia].
      apply (Forall_py_dict (fun v => length v = length y)).
      apply target_items_length.
    + rewrite delay_target_step_skip by assumption. destruct y; lia.
Qed.

(** ** Columns of the result *)

Lemma feature_pairs_length self X :
  wf X ->
  Forall (fun kv => length (snd kv) = nrows X) (feature_pairs self X).
Proof.
  intros [_ Hlen]. apply Forall_forall. intros [k v] Hin.
  apply in_feature_pairs in Hin. destruct Hin as (c & s & t & Hin & _ & _ & ->).
  simpl. rewrite length_shift. rewrite Forall_forall in Hlen.
  exact (Hlen _ Hin).
Qed.

(** After the feature step, [c_delay_t] is column [c] delayed by [t]. *)
Lemma df_col_features_frame_new self X c s t :
  wf X -> delay_features self = true -> df_empty X = false ->
  df_col X c = Some s -> (1 <= t <= max_delay self)%Z ->
  df_col (features_frame self X) (feature_name c t) = Some (shift t s).
Proof.
  intros HX Hdf Hne Hc Ht.
  pose proof (nrows_features_frame self X) as HN. revert HN.
  unfold features_frame. rewrite Hdf, Hne. simpl. intros HN.
  rewrite df_col_assign, HN by assumption.
  rewrite dict_get_rev_py_dict, (feature_pairs_get self X c s t) by assumption.
  f_equal. apply reindex_same. rewrite length_shift.
  eapply wf_col_length; eauto.
Qed.

(** The feature step leaves alone every column whose name it does not
    generate. *)
Lemma df_col_features_frame_old self X k :
  wf X -> ~ In k (keys (feature_pairs self X)) ->
  df_col (features_frame self X) k = df_col X k.
Proof.
  intros HX Hk.
  pose proof (nrows_features_frame self X) as HN. revert HN.
  unfold features_frame. destruct (_ && _); auto. intros HN.
  rewrite df_col_assign, HN by assumption.
  rewrite dict_get_rev_py_dict.
  assert (E : dict_get (rev (feature_pairs self X)) k = None).
  { apply dict_get_None. now rewrite keys_rev. }
  rewrite E. destruct (df_col X k) as [s|] eqn:Es; simpl; auto.
  f_equal. apply reindex_same. eapply wf_col_length; eauto.
Qed.

Lemma in_iter_features_frame self X k :
  In k (iter (features_frame self X)) ->
  In k (iter X) \/
  (delay_features self = true /\ df_empty X = false /\
   In k (keys (feature_pairs self X))).
Proof.
  unfold features_frame.
  destruct (delay_features self); simpl; auto.
  destruct (df_empty X); simpl; auto.
  unfold iter. rewrite in_keys_assign, in_keys_py_dict. tauto.
Qed.

(** After the target step, [target_delay_t] is [y] delayed by [t], aligned
    on the rows of the result. *)
Lemma df_col_delay_target_step_new self X y t :
  wf X -> delay_target self = true ->
  (start_delay_for_target self <= t <= max_delay self)%Z ->
  let out := delay_target_step self X (Some y) in
  df_col out (target_name t) = Some (reindex (nrows out) (shift t y)).
Proof.
  intros HX Hdt Ht. unfold delay_target_step. rewrite Hdt. simpl.
  rewrite df_col_assign by assumption.
  rewrite dict_get_rev_py_dict, target_items_get by assumption. reflexivity.
Qed.

Lemma df_col_delay_target_step_old self X y k :
  wf X -> ~ In k (target_keys self y) ->
  let out := delay_target_step self X y in
  df_col out k = option_map (reindex (nrows out)) (df_col X k).
Proof.
  intros HX Hk. unfold delay_target_step, target_keys in *.
  assert (Hid : df_col X k = option_map (reindex (nrows X)) (df_col X k)).
  { destruct (df_col X k) as [s|] eqn:Es; simpl; auto.
    f_equal. symmetry. apply reindex_same. eapply wf_col_length; eauto. }
  destruct y as [y|]; auto. destruct (delay_target self); auto. simpl.
  rewrite df_col_assign by assumption.
  rewrite dict_get_rev_py_dict.
  assert (E : dict_get (rev (target_items self y)) k = None).
  { apply dict_get_None. now rewrite keys_rev. }
  now rewrite E.
Qed.

Lemma in_iter_delay_target_step self X y k :
  In k (iter (delay_target_step self X y)) <->
  In k (iter X) \/ In k (target_keys self y).
Proof.
  unfold delay_target_step, target_keys.
  destruct y as [y|]; simpl; [|tauto].
  destruct (delay_target self); simpl; [|tauto].
  unfold iter. now rewrite in_keys_assign, in_keys_py_dict.
Qed.

Lemma in_target_keys self y k :
  In k (target_keys self y) <->
  delay_target self = true /\ y <> None /\
  exists t, (start_delay_for_target self <= t <= max_delay self)%Z /\
            k = target_name t.
Proof.
  unfold target_keys. destruct y as [y|].
  - destruct (delay_target self).
    + rewrite in_keys_target_items. split; [|tauto].
      intros H. repeat split; auto. discriminate.
    + simpl. split; [tauto | intros [H _]; discriminate].
  - simpl. split; [tauto | intros (_ & H & _); congruence].
Qed.

(** A column of [X] whose name is not generated is found in the result,
    aligned on the rows of the result. *)
Lemma original_column_kept self X y c :
  wf X -> ~ In c (assigned_names self X y) ->
  let out := delay_target_step self (features_frame self X) y in
  df_col out c = option_map (reindex (nrows out)) (df_col X c).
Proof.
  intros HX Hc. unfold assigned_names in Hc. rewrite in_app_iff in Hc.
  simpl. rewrite df_col_delay_target_step_old; auto using wf_features_frame.
  f_equal. unfold features_frame in *.
  destruct (delay_features self && negb (df_empty X)) eqn:E; auto.
  pose proof (df_col_features_frame_old self X c HX) as H.
  unfold features_frame in H. rewrite E in H. apply H. tauto.
Qed.

Lemma nth_error_reindex_same n (s : Series) i :
  i < length s -> i < n -> nth_error (reindex n s) i = nth_error s i.
Proof.
  intros Hi Hn. rewrite nth_error_reindex by assumption.
  destruct (Nat.ltb_spec i (length s)); [reflexivity | lia].
Qed.

(** * The transformer's contract *)

Lemma nth_error_shift_cell t (s : Series) i :
  (0 <= t)%Z -> i < length s -> nth_error (shift t s) i = delayed_cell s t i.
Proof.
  intros Ht Hi. rewrite nth_error_shift by assumption. unfold delayed_cell.
  destruct (Nat.ltb_spec i (Z.to_nat t)), (Z.ltb_spec (Z.of_nat i) t);
    auto; lia.
Qed.

Lemma start_delay_init md df dt g rs :
  start_delay_for_target (init md df dt g rs) = (if (g =? 0)%Z then 1 else 0)%Z.
Proof. reflexivity. Qed.

Lemma start_delay_init_bounds md df dt g rs :
  (0 <= start_delay_for_target (init md df dt g rs) <= 1)%Z.
Proof. rewrite start_delay_init. destruct (g =? 0)%Z; lia. Qed.

(** X1: Feature delays away from the name clash with the target: on a table
    with rows and columns, [c_delay_t] holds column [c] delayed by [t] for
    every [t] in [1 .. max_delay], unless the target step stores its own
    column under that name. *)
Theorem feature_delay_column self X y c s t :
  wf X -> delay_features self = true -> df_empty X = false ->
  df_col X c = Some s -> (1 <= t <= max_delay self)%Z ->
  ~ In (feature_name c t) (target_keys self y) ->
  exists out,
    transform self (Some X) y = Ok out /\
    df_col out (feature_name c t) = Some (shift t s) /\
    forall i, i < nrows X ->
      df_cell out (feature_name c t) i = delayed_cell s t i.
Proof.
  intros HX Hdf Hne Hc Ht Hk. eexists. split; [now apply transform_ok|].
  simpl frame_of.
  assert (Hs : length s = nrows X) by (eapply wf_col_length; eauto).
  assert (E : df_col (delay_target_step self (features_frame self X) y)
                     (feature_name c t) = Some (shift t s)).
  { rewrite df_col_delay_target_step_old; auto using wf_features_frame.
    rewrite (df_col_features_frame_new self X c s t) by assumption. simpl.
    f_equal. apply reindex_same.
    rewrite length_shift, nrows_delay_target_step, nrows_features_frame.
    apply df_empty_false in Hne.
    destruct (Nat.ltb_spec 0 (nrows X)); lia. }
  split; [exact E|]. intros i Hi. unfold df_cell. rewrite E.
  apply nth_error_shift_cell; lia.
Qed.

Lemma feature_delay_column_witness :
  let X := mkDataFrame 4 [("a", vals [10; 20; 30; 40])%Z] in
  let self := init 2 true true 1 0 in
  wf X /\ delay_features self = true /\ df_empty X = false /\
  df_col X "a" = Some (vals [10; 20; 30; 40]%Z) /\
  (1 <= 2 <= max_delay self)%Z /\
  ~ In (feature_name "a" 2) (target_keys self None) /\
  exists out,
    transform self (Some X) None = Ok out /\
    df_col out (feature_name "a" 2) = Some (shift 2 (vals [10; 20; 30; 40]%Z)) /\
    forall i, i < 4 ->
      df_cell out (feature_name "a" 2) i = delayed_cell (vals [10; 20; 30; 40]%Z) 2 i.
Proof.
  intros X self.
  assert (H1 : wf X) by (split; simpl; repeat constructor; simpl; tauto).
  assert (H2 : delay_features self = true) by reflexivity.
  assert (H3 : df_empty X = false) by reflexivity.
  assert (H4 : df_col X "a" = Some (vals [10; 20; 30; 40]%Z)) by reflexivity.
  assert (H5 : (1 <= 2 <= max_delay self)%Z) by (simpl; lia).
  assert (H6 : ~ In (feature_name "a" 2) (target_keys self None))
    by (simpl; tauto).
  repeat (split; [assumption|]).
  exact (feature_delay_column self X None "a" _ 2 H1 H2 H3 H4 H5 H6).
Defined.

(** C1, at the input where the code departs from it: [X] has the single
    column [target = [10, 20, 30]], [y = [1, 2, 3]], [max_delay = 1],
    [gap = 1], both flags on.  The column [target_delay_1] of the result is
    [[NA, 1, 2]], the delayed target, and not [[NA, 10, 20]], the delayed
    feature: row 1 reads 1 where the claim says 10. *)
Theorem C1_target_feature_delay_lost :
  let X := mkDataFrame 3 [("target", vals [10; 20; 30]%Z)] in
  let y := vals [1; 2; 3]%Z in
  exists out,
    transform (init 1 true true 1 0) (Some X) (Some y) = Ok out /\
    wf X /\ df_empty X = false /\
    df_col X "target" = Some (vals [10; 20; 30]%Z) /\
    feature_name "target" 1 = "target_delay_1" /\
    df_col out "target_delay_1" = Some [NA; Some 1; Some 2]%Z /\
    df_cell out (feature_name "target" 1) 1 = Some (Some 1%Z) /\
    delayed_cell (vals [10; 20; 30]%Z) 1 1 = Some (Some 10%Z).
Proof.
  simpl. eexists. split; [reflexivity|].
  repeat split; repeat constructor; simpl; tauto.
Qed.

Example feature_delay_example :
  transform (init 2 true true 1 0)
    (Some (mkDataFrame 4 [("a", vals [10; 20; 30; 40]%Z)])) None =
  Ok (mkDataFrame 4
        [("a", vals [10; 20; 30; 40]%Z);
         ("a_delay_1", [NA; Some 10; Some 20; Some 30]%Z);
         ("a_delay_2", [NA; NA; Some 10; Some 20]%Z)]).
Proof. reflexivity. Qed.

(** Rows of the result of [transform] on a well-formed table. *)
Lemma nrows_transform self X y :
  wf (frame_of X) ->
  nrows (delay_target_step self (features_frame self (frame_of X)) y) =
  if 0 <? nrows (frame_of X) then nrows (frame_of X)
  else match y with
       | Some y' => if target_columns_produced self y then length y' else 0
       | None => 0
       end.
Proof.
  intros _. now rewrite nrows_delay_target_step, nrows_features_frame.
Qed.

Lemma wf_frame_of X : wf_opt X -> wf (frame_of X).
Proof. destruct X; [auto | intros _; exact wf_empty_frame]. Qed.

(** C2: with [delay_target] on and [y] given, the result has a column
    [target_delay_t] for every [t] from [start] to [max_delay], where
    [start] is 1 when [gap == 0] and 0 otherwise.  The column is [y] delayed
    by [t]: missing on rows [i < t], the value of [y] at row [i - t] on the
    other rows of [y]; it is exactly [y.shift(t)] when [X] has no rows or as
    many as [y].  With [gap == 0] the target step stores nothing under
    [target_delay_0]; with another gap and [max_delay >= 0] that column is
    [y] itself.  For [y = [1, 2, 3, 4]], [max_delay = 1], [gap = 0] and no
    features the result is the single column
    [target_delay_1 = [NA, 1, 2, 3]]. *)
Theorem C2_target_delay_columns md df g rs X y :
  wf_opt X ->
  let self := init md df true g rs in
  let start := (if (g =? 0)%Z then 1 else 0)%Z in
  exists out,
    transform self X (Some y) = Ok out /\
    (forall t, (start <= t <= md)%Z ->
       df_col out (target_name t) = Some (reindex (nrows out) (shift t y)) /\
       (forall i, i < nrows out -> i < length y ->
          df_cell out (target_name t) i = delayed_cell y t i) /\
       (nrows (frame_of X) = 0 \/ nrows (frame_of X) = length y ->
          df_col out (target_name t) = Some (shift t y))) /\
    (g = 0%Z -> ~ In (target_name 0) (target_keys self (Some y))) /\
    (g = 0%Z -> ~ In (target_name 0) (iter (frame_of X)) ->
       df_col out (target_name 0) = None) /\
    (g <> 0%Z -> (0 <= md)%Z ->
       df_col out (target_name 0) = Some (reindex (nrows out) y)) /\
    transform (init 1 df true 0 rs) None (Some (vals [1; 2; 3; 4]%Z)) =
      Ok (mkDataFrame 4 [("target_delay_1", [NA; Some 1; Some 2; Some 3]%Z)]).
Proof.
  intros HX self start. pose proof (wf_frame_of X HX) as H0.
  eexists. split; [now apply transform_ok|].
  set (X1 := features_frame self (frame_of X)).
  assert (H1 : wf X1) by now apply wf_features_frame.
  assert (Hcol : forall t, (start <= t <= md)%Z ->
            df_col (delay_target_step self X1 (Some y)) (target_name t) =
            Some (reindex (nrows (delay_target_step self X1 (Some y)))
                          (shift t y))).
  { intros t Ht. now apply df_col_delay_target_step_new. }
  assert (Hstart : (0 <= start)%Z) by (unfold start; destruct (g =? 0)%Z; lia).
  assert (Hzero : g = 0%Z -> ~ In (target_name 0) (target_keys self (Some y))).
  { intros -> Hin. apply in_target_keys in Hin.
    destruct Hin as (_ & _ & t & Ht & E). apply target_name_inj in E.
    subst t. simpl in Ht. lia. }
  repeat split.
  - now apply Hcol.
  - intros i Hi Hy. unfold df_cell. rewrite Hcol by assumption.
    rewrite nth_error_reindex_same; rewrite ?length_shift; auto.
    apply nth_error_shift_cell; lia.
  - intros Hal. rewrite Hcol by assumption. f_equal. apply reindex_same.
    rewrite length_shift. unfold X1. rewrite nrows_transform by assumption.
    assert (Hp : target_columns_produced self (Some y) = true).
    { simpl. apply Z.leb_le. fold start. lia. }
    rewrite Hp. destruct (Nat.ltb_spec 0 (nrows (frame_of X))); lia.
  - exact Hzero.
  - intros Hg Hnin.
    rewrite df_col_delay_target_step_old; auto.
    assert (E : df_col X1 (target_name 0) = None); [|now rewrite E].
    apply dict_get_None. intros Hin.
    apply (in_iter_features_frame self (frame_of X)) in Hin.
    destruct Hin as [Hin|(_ & _ & Hin)]; [tauto|].
    apply in_keys_feature_pairs in Hin. destruct Hin as (c & t & _ & Ht & E).
    symmetry in E. apply feature_target_collision in E. lia.
  - intros Hg Hmd. rewrite Hcol, shift_0; auto.
    unfold start. destruct (Z.eqb_spec g 0); [tauto | lia].
  - destruct df; reflexivity.
Qed.

Lemma C2_target_delay_columns_witness :
  let X := Some (mkDataFrame 3 [("a", vals [7; 8; 9]%Z)]) in
  let y := vals [1; 2; 3]%Z in
  wf_opt X /\
  exists out,
    transform (init 2 true true 1 0) X (Some y) = Ok out /\
    df_col out (target_name 0) = Some y /\
    df_col out (target_name 1) = Some [NA; Some 1; Some 2]%Z /\
    df_col out (target_name 2) = Some [NA; NA; Some 1]%Z.
Proof.
  intros X y.
  assert (HX : wf_opt X).
  { split; simpl; repeat constructor. simpl. tauto. }
  split; [exact HX|].
  destruct (C2_target_delay_columns 2 true 1 0 X y HX)
    as (out & Hout & Hcols & _).
  exists out. split; [exact Hout|].
  split; [|split].
  - destruct (Hcols 0%Z) as (_ & _ & H); [simpl; lia|].
    rewrite H by (right; reflexivity). reflexivity.
  - destruct (Hcols 1%Z) as (_ & _ & H); [simpl; lia|].
    rewrite H by (right; reflexivity). reflexivity.
  - destruct (Hcols 2%Z) as (_ & _ & H); [simpl; lia|].
    rewrite H by (right; reflexivity). reflexivity.
Defined.

(** C3 as stated fails: the same inputs, no table and [y = [1, 2, 3, 4]],
    give four rows under [max_delay = 1] and none under [max_delay = 0]
    (both with [gap = 0]), so the row count of the result is neither always
    that of [X] (zero here) nor always that of [y]. *)
Lemma C3_row_count_counterexample :
  let y := vals [1; 2; 3; 4]%Z in
  (exists out,
     transform (init 1 true true 0 0) None (Some y) = Ok out /\
     nrows out = 4 /\ nrows out <> nrows (frame_of None)) /\
  (exists out,
     transform (init 0 true true 0 0) None (Some y) = Ok out /\
     nrows out = 0 /\ nrows out <> length y).
Proof.
  split; eexists; (split; [reflexivity|]); simpl; split; congruence.
Qed.

(** C3, amended: the result is a rectangular table; it has the rows of
    [X] whenever [X] has rows, and on a table without rows (or no table) it
    has the rows of [y] when a target-delay column is stored and none
    otherwise.  The columns of [X] come first, in their order, and every
    column of [X] whose name is not generated reads at each row of [X] what
    it read in [X]: no row is dropped or moved. *)
Theorem C3_row_count self X y :
  wf_opt X ->
  exists out,
    transform self X y = Ok out /\
    wf out /\
    (0 < nrows (frame_of X) -> nrows out = nrows (frame_of X)) /\
    (nrows (frame_of X) = 0 ->
       nrows out = match y with
                   | Some y' =>
                       if target_columns_produced self y then length y' else 0
                   | None => 0
                   end) /\
    (exists added, iter out = iter (frame_of X) ++ added) /\
    (forall c s i,
       df_col (frame_of X) c = Some s ->
       ~ In c (assigned_names self (frame_of X) y) ->
       i < nrows (frame_of X) ->
       df_cell out c i = nth_error s i).
Proof.
  intros HX. pose proof (wf_frame_of X HX) as H0.
  eexists. split; [now apply transform_ok|].
  pose proof (nrows_transform self X y H0) as HN.
  repeat split.
  - apply wf_delay_target_step, wf_features_frame, H0.
  - apply wf_delay_target_step, wf_features_frame, H0.
  - intros Hpos. rewrite HN.
    destruct (Nat.ltb_spec 0 (nrows (frame_of X))); [reflexivity | lia].
  - intros Hz. rewrite HN, Hz. reflexivity.
  - assert (H1 : exists l, iter (features_frame self (frame_of X))
                           = iter (frame_of X) ++ l).
    { unfold features_frame. destruct (_ && _).
      - apply keys_assign_prefix.
      - exists []. now rewrite app_nil_r. }
    destruct H1 as [l1 E1].
    assert (H2 : exists l,
               iter (delay_target_step self (features_frame self (frame_of X)) y)
               = iter (features_frame self (frame_of X)) ++ l).
    { unfold delay_target_step. destruct y as [y|].
      - destruct (delay_target self).
        + apply keys_assign_prefix.
        + exists []. now rewrite app_nil_r.
      - exists []. now rewrite app_nil_r. }
    destruct H2 as [l2 E2]. exists (l1 ++ l2).
    now rewrite E2, E1, app_assoc.
  - intros c s i Hc Hnin Hi. unfold df_cell.
    rewrite original_column_kept, Hc by assumption. simpl.
    assert (Hs : length s = nrows (frame_of X)) by (eapply wf_col_length; eauto).
    apply nth_error_reindex_same; [lia|].
    rewrite HN. destruct (Nat.ltb_spec 0 (nrows (frame_of X))); lia.
Qed.

Lemma C3_row_count_witness :
  let X := Some (mkDataFrame 2 [("a", vals [5; 6]%Z)]) in
  wf_opt X /\
  exists out,
    transform (init 1 true true 0 0) X (Some (vals [1; 2]%Z)) = Ok out /\
    nrows out = 2.
Proof.
  intros X.
  assert (HX : wf_opt X).
  { split; simpl; repeat constructor. simpl. tauto. }
  split; [exact HX|].
  destruct (C3_row_count (init 1 true true 0 0) X (Some (vals [1; 2]%Z)) HX)
    as (out & Hout & _ & Hrows & _).
  exists out. split; [exact Hout|]. apply Hrows. simpl. lia.
Defined.

(** C4: without a table [transform] runs on [pd.DataFrame()], the table
    with no rows and no columns: it returns the same as on that table, the
    feature step adds nothing, every column of the result is a target-delay
    column [target_delay_t] with [t] from the first target delay to
    [max_delay] (and then [delay_target] is on and [y] is given), and the
    result is the empty table when no target-delay column is stored. *)
Theorem C4_absent_table self y :
  transform self None y = transform self (Some empty_frame) y /\
  delay_features_step self (frame_of None) = Ok empty_frame /\
  exists out,
    transform self None y = Ok out /\
    (forall k, In k (iter out) ->
       delay_target self = true /\ y <> None /\
       exists t, (start_delay_for_target self <= t <= max_delay self)%Z /\
                 k = target_name t) /\
    (target_columns_produced self y = false -> out = empty_frame).
Proof.
  split; [reflexivity|].
  assert (E : features_frame self empty_frame = empty_frame).
  { unfold features_frame. simpl. now rewrite andb_false_r. }
  split.
  - rewrite delay_features_step_ok by exact wf_empty_frame. simpl.
    now rewrite E.
  - eexists. split; [now apply transform_ok|]. simpl frame_of. rewrite E.
    split.
    + intros k Hin. apply in_iter_delay_target_step in Hin.
      destruct Hin as [[]|Hin]. now apply in_target_keys.
    + apply delay_target_step_skip.
Qed.

(** C5: with [delay_features] off the feature step returns its table
    unchanged, and every column of the result is a column of [X] or a
    target-delay column; with [delay_target] off or without [y] the target
    step stores nothing, the result is that of the feature step, and every
    column of the result is a column of [X] or a feature-delay column; with
    both off the result is the table itself. *)
Theorem C5_flags_off self X y :
  wf_opt X ->
  exists out,
    transform self X y = Ok out /\
    (delay_features self = false ->
       delay_features_step self (frame_of X) = Ok (frame_of X) /\
       forall k, In k (iter out) ->
         In k (iter (frame_of X)) \/ In k (target_keys self y)) /\
    (delay_target self = false \/ y = None ->
       target_keys self y = [] /\
       delay_features_step self (frame_of X) = Ok out /\
       forall k, In k (iter out) ->
         In k (iter (frame_of X)) \/ In k (feature_keys self (frame_of X))) /\
    (delay_features self = false ->
     delay_target self = false \/ y = None ->
       out = frame_of X).
Proof.
  intros HX. pose proof (wf_frame_of X HX) as H0.
  eexists. split; [now apply transform_ok|].
  assert (Hoff : delay_features self = false ->
                 features_frame self (frame_of X) = frame_of X).
  { intros Hdf. unfold features_frame. now rewrite Hdf. }
  assert (Hskip : delay_target self = false \/ y = None ->
                  forall X1, delay_target_step self X1 y = X1).
  { intros [Hdt| ->] X1; unfold delay_target_step; [|reflexivity].
    rewrite Hdt. now destruct y. }
  assert (Hkeys : delay_target self = false \/ y = None ->
                  target_keys self y = []).
  { intros [Hdt| ->]; unfold target_keys; [|reflexivity].
    rewrite Hdt. now destruct y. }
  split; [|split].
  - intros Hdf. split.
    + unfold delay_features_step. now rewrite Hdf.
    + intros k Hin. apply in_iter_delay_target_step in Hin.
      now rewrite Hoff in Hin.
  - intros Hdt. split; [auto|]. rewrite Hskip by assumption. split.
    + now apply delay_features_step_ok.
    + intros k Hin. apply in_iter_features_frame in Hin.
      unfold feature_keys. tauto.
  - intros Hdf Hdt. now rewrite Hskip, Hoff.
Qed.

Lemma C5_flags_off_witness :
  let X := Some (mkDataFrame 2 [("a", vals [5; 6]%Z)]) in
  wf_opt X /\
  transform (init 2 false false 1 0) X (Some (vals [1; 2]%Z)) = Ok (frame_of X).
Proof.
  intros X.
  assert (HX : wf_opt X).
  { split; simpl; repeat constructor. simpl. tauto. }
  split; [exact HX|].
  destruct (C5_flags_off (init 2 false false 1 0) X (Some (vals [1; 2]%Z)) HX)
    as (out & Hout & _ & _ & Hboth).
  rewrite Hout. f_equal. apply Hboth; [reflexivity | left; reflexivity].
Defined.

(** X2: Columns of [X] away from the generated names: a column of [X] whose
    name [transform] does not generate is in the result, at its place, and
    reads at every row of [X] what it read in [X]; when [X] has rows the
    column is the same. *)
Theorem original_columns_kept self X y c s :
  wf X -> df_col X c = Some s -> ~ In c (assigned_names self X y) ->
  exists out,
    transform self (Some X) y = Ok out /\
    df_col out c = Some (reindex (nrows out) s) /\
    (0 < nrows X -> df_col out c = Some s) /\
    (forall i, i < nrows X -> df_cell out c i = nth_error s i).
Proof.
  intros HX Hc Hnin.
  eexists. split; [now apply (transform_ok self (Some X))|].
  simpl frame_of.
  pose proof (nrows_transform self (Some X) y HX) as HN. simpl frame_of in HN.
  assert (Hs : length s = nrows X) by (eapply wf_col_length; eauto).
  assert (E : df_col (delay_target_step self (features_frame self X) y) c
              = Some (reindex (nrows (delay_target_step self
                                        (features_frame self X) y)) s)).
  { rewrite original_column_kept, Hc by assumption. reflexivity. }
  split; [exact E|]. split.
  - intros Hpos. rewrite E. f_equal. apply reindex_same.
    rewrite HN. destruct (Nat.ltb_spec 0 (nrows X)); lia.
  - intros i Hi. unfold df_cell. rewrite E.
    apply nth_error_reindex_same; [lia|].
    rewrite HN. destruct (Nat.ltb_spec 0 (nrows X)); lia.
Qed.

(** C6, at an input where the code departs from it: [X] has the columns
    [a = [1, 2]] and [a_delay_1 = [5, 6]], no target, [max_delay = 1].  The
    name generated for the delay of [a] is that of the second column, whose
    values [[5, 6]] are replaced by [[NA, 1]] in the result. *)
Theorem C6_original_column_overwritten :
  let X := mkDataFrame 2 [("a", vals [1; 2]%Z); ("a_delay_1", vals [5; 6]%Z)] in
  exists out,
    transform (init 1 true true 1 0) (Some X) None = Ok out /\
    wf X /\
    df_col X "a_delay_1" = Some [Some 5; Some 6]%Z /\
    df_col out "a_delay_1" = Some [NA; Some 1]%Z /\
    df_cell out "a_delay_1" 1 = Some (Some 1%Z) /\
    In "a_delay_1" (assigned_names (init 1 true true 1 0) X None).
Proof.
  simpl. eexists. split; [reflexivity|].
  repeat split; repeat constructor; simpl; auto.
  intros [E|[]]. discriminate E.
Qed.

(** [transform] is the feature step followed by the target step. *)
Lemma transform_steps self X y :
  transform self X y =
  (X1 <- delay_features_step self (frame_of X) ;;
   Ok (delay_target_step self X1 y)).
Proof.
  unfold transform, _convert_to_woodwork_structure,
    _convert_woodwork_types_wrapper.
  destruct y; reflexivity.
Qed.

(** With distinct labels every look-up of the first comprehension
    succeeds. *)
Lemma getitem_distinct X c s :
  NoDup (iter X) -> df_col X c = Some s -> getitem X c = Ok s.
Proof.
  unfold iter, getitem, df_col.
  induction (columns X) as [|[k v] d IH]; simpl; [discriminate|].
  intros Hnd. inversion Hnd as [|? ? Hnin Hnd']; subst.
  destruct (String.eqb_spec k c) as [->|Hne].
  - intros [= ->]. now rewrite filter_absent.
  - auto.
Qed.

Lemma feature_items_distinct self X :
  NoDup (iter X) -> feature_items self X = Ok (feature_pairs self X).
Proof.
  intros Hnd. unfold feature_items, feature_pairs.
  rewrite flat_map_concat_map.
  rewrite <- (map_id (range 1 (max_delay self + 1))) at 1.
  rewrite (mapM_map_ok _ (fun t => t)
             (fun t => map (fun c => (feature_name (fst c) t, shift t (snd c)))
                           (columns X))); [reflexivity|].
  intros t _. unfold iter, keys. apply mapM_map_ok.
  intros [k v] Hin. simpl.
  now rewrite (getitem_distinct X k v Hnd (In_dict_get _ k v Hnd Hin)).
Qed.

(** The feature step returns when the labels are distinct, and on every
    table when it has nothing to look up. *)
Lemma delay_features_step_returns self X :
  NoDup (iter X) \/ delay_features self = false \/ df_empty X = true \/
    (max_delay self < 1)%Z ->
  delay_features_step self X = Ok (features_frame self X).
Proof.
  intros H. unfold delay_features_step, features_frame.
  destruct (delay_features self && negb (df_empty X)) eqn:Hc; auto.
  apply andb_true_iff in Hc. destruct Hc as [Hdf Hne].
  apply negb_true_iff in Hne.
  destruct H as [H|[H|[H|H]]]; try congruence.
  - now rewrite feature_items_distinct.
  - unfold feature_items, feature_pairs. now rewrite range_nil by lia.
Qed.

(** C8 as stated fails: a table may carry one label on two columns.  On
    the rectangular table with two columns called [a], under the default
    configuration, the look-up [X["a"]] selects both columns, the delayed
    pair cannot be stored under the one name [a_delay_1], and [transform]
    raises [ValueError]. *)
Lemma C8_repeated_label_counterexample :
  let X := mkDataFrame 2 [("a", vals [1; 2]%Z); ("a", vals [3; 4]%Z)] in
  Forall (fun c => length (snd c) = nrows X) (columns X) /\
  df_empty X = false /\
  transform (init 2 true true 1 0) (Some X) None
  = Raise (ValueError "Wrong number of items passed") /\
  ~ exists out, transform (init 2 true true 1 0) (Some X) None = Ok out.
Proof.
  simpl. split; [repeat constructor|]. split; [reflexivity|].
  split; [reflexivity|]. intros [out H]. discriminate H.
Qed.

(** C8, amended: [transform] returns a table, and raises nothing, on
    every table whose column labels are distinct, with or without target,
    under every integer configuration; and on every table whatever its
    labels when the feature step has nothing to look up ([delay_features]
    off, no rows or no columns, or [max_delay < 1]).  A table without rows
    or columns skips the feature delays: the feature step returns it as it
    is and the result is that of the target step alone.  An absent target
    skips the target delays: the result is that of the feature step alone.
    With both, the table comes back unchanged.  A negative [max_delay] is
    taken without validation and returns every table unchanged. *)
Theorem C8_no_errors md df dt g rs X y :
  let self := init md df dt g rs in
  (NoDup (iter (frame_of X)) \/ df = false \/ df_empty (frame_of X) = true \/
     (md < 1)%Z ->
   exists out, transform self X y = Ok out) /\
  (df_empty (frame_of X) = true ->
     delay_features_step self (frame_of X) = Ok (frame_of X) /\
     transform self X y = Ok (delay_target_step self (frame_of X) y)) /\
  (forall X1, delay_target_step self X1 None = X1) /\
  transform self X None = delay_features_step self (frame_of X) /\
  (df_empty (frame_of X) = true -> transform self X None = Ok (frame_of X)) /\
  ((md < 0)%Z -> transform self X y = Ok (frame_of X)).
Proof.
  intros self.
  assert (Hempty : df_empty (frame_of X) = true ->
                   delay_features_step self (frame_of X) = Ok (frame_of X)).
  { intros He. unfold delay_features_step. rewrite He.
    now rewrite andb_false_r. }
  split; [|split; [|split; [|split; [|split]]]].
  - intros H. rewrite transform_steps.
    rewrite (delay_features_step_returns self (frame_of X)) by exact H.
    simpl. eauto.
  - intros He. split; [now apply Hempty|].
    rewrite transform_steps, Hempty by assumption. reflexivity.
  - reflexivity.
  - rewrite transform_steps.
    destruct (delay_features_step self (frame_of X)); reflexivity.
  - intros He. rewrite transform_steps, Hempty by assumption. reflexivity.
  - intros Hmd. rewrite transform_steps.
    rewrite (delay_features_step_returns self (frame_of X))
      by (right; right; right; simpl; lia).
    simpl. f_equal. rewrite delay_target_step_skip.
    + unfold features_frame. destruct (_ && _); auto.
      unfold feature_pairs. rewrite range_nil by (simpl; lia). reflexivity.
    + unfold target_columns_produced. destruct y; auto.
      apply andb_false_iff. right. apply Z.leb_gt.
      pose proof (start_delay_init_bounds md df dt g rs). simpl in *. lia.
Qed.

Lemma C8_no_errors_witness :
  let X := Some (mkDataFrame 2 [("a", vals [5; 6]%Z); ("b", vals [7; 8]%Z)]) in
  let y := Some (vals [1; 2]%Z) in
  NoDup (iter (frame_of X)) /\
  (exists out, transform (init 2 true true 1 0) X y = Ok out) /\
  transform (init (-3) true true 1 0) X y = Ok (frame_of X).
Proof.
  intros X y.
  assert (HX : NoDup (iter (frame_of X))).
  { simpl. repeat constructor; simpl; intuition discriminate. }
  split; [exact HX|]. split.
  - apply (proj1 (C8_no_errors 2 true true 1 0 X y)). left. exact HX.
  - destruct (C8_no_errors (-3) true true 1 0 X y) as (_ & _ & _ & _ & _ & Hneg).
    apply Hneg. lia.
Defined.

(** C9 as stated fails: with no table, [delay_target] on,
    [y = [1, 2, 3, 4]], [max_delay = 0] and [gap = 0], the first target delay
    is 1, no target-delay column is stored, and the result has no rows. *)
Lemma C9_rows_counterexample :
  exists out,
    transform (init 0 true true 0 0) None (Some (vals [1; 2; 3; 4]%Z)) = Ok out /\
    delay_target (init 0 true true 0 0) = true /\
    nrows out = 0 /\
    nrows out <> length (vals [1; 2; 3; 4]%Z).
Proof.
  eexists. split; [reflexivity|]. simpl. repeat split; congruence.
Qed.

(** C9, amended: when [X] is absent or is the table with no rows and no
    columns, [delay_target] is on, a non-empty [y] is given and the first
    target delay is at most [max_delay], the result has as many rows as [y]
    has elements, each of its columns has that many cells, and it is not
    the table without rows. *)
Theorem C9_rows_from_target self X (y : Series) :
  frame_of X = empty_frame ->
  delay_target self = true ->
  y <> [] ->
  (start_delay_for_target self <= max_delay self)%Z ->
  exists out,
    transform self X (Some y) = Ok out /\
    nrows out = length y /\
    0 < nrows out /\
    (forall k s, df_col out k = Some s -> length s = length y).
Proof.
  intros HX Hdt Hy Hstart.
  assert (H0 : wf_opt X).
  { destruct X as [X|]; simpl in *; [subst X; exact wf_empty_frame | exact I]. }
  eexists. split; [now apply transform_ok|].
  rewrite HX.
  assert (HN : nrows (delay_target_step self (features_frame self empty_frame)
                        (Some y)) = length y).
  { rewrite nrows_delay_target_step, nrows_features_frame.
    unfold target_columns_produced. apply Z.leb_le in Hstart.
    rewrite Hdt, Hstart. reflexivity. }
  split; [exact HN|]. split.
  - rewrite HN. destruct y; [congruence | simpl; lia].
  - intros k s Hs. rewrite <- HN. eapply wf_col_length; eauto.
    apply wf_delay_target_step, wf_features_frame, wf_empty_frame.
Qed.

Lemma C9_rows_from_target_witness :
  frame_of None = empty_frame /\
  delay_target (init 1 true true 0 0) = true /\
  vals [1; 2; 3; 4]%Z <> [] /\
  (start_delay_for_target (init 1 true true 0 0)
   <= max_delay (init 1 true true 0 0))%Z /\
  exists out,
    transform (init 1 true true 0 0) None (Some (vals [1; 2; 3; 4]%Z)) = Ok out /\
    nrows out = 4.
Proof.
  assert (H1 : frame_of None = empty_frame) by reflexivity.
  assert (H2 : delay_target (init 1 true true 0 0) = true) by reflexivity.
  assert (H3 : vals [1; 2; 3; 4]%Z <> []) by discriminate.
  assert (H4 : (start_delay_for_target (init 1 true true 0 0)
                <= max_delay (init 1 true true 0 0))%Z) by (simpl; lia).
  repeat (split; [assumption|]).
  destruct (C9_rows_from_target (init 1 true true 0 0) None
              (vals [1; 2; 3; 4]%Z) H1 H2 H3 H4) as (out & Hout & Hrows & _).
  exists out. split; [exact Hout | exact Hrows].
Defined.

(** C10: when [X] has rows and a column called [target], both flags are
    on and [y] is given, then for every [t] from [max(1, start)] to
    [max_delay] the name of the delayed feature and of the delayed target
    are the same, [target_delay_t].  The feature step stores the delayed
    feature under it; in the result there is one column of that name, it
    holds [y] delayed by [t], and the delayed feature is gone unless the two
    Series happen to be equal. *)
Theorem C10_target_name_collision self X (y xs : Series) t :
  wf X -> df_empty X = false ->
  df_col X "target" = Some xs ->
  delay_features self = true -> delay_target self = true ->
  (Z.max 1 (start_delay_for_target self) <= t <= max_delay self)%Z ->
  feature_name "target" t = target_name t /\
  (exists X1,
     delay_features_step self X = Ok X1 /\
     df_col X1 (target_name t) = Some (shift t xs)) /\
  exists out,
    transform self (Some X) (Some y) = Ok out /\
    df_col out (target_name t) = Some (reindex (nrows X) (shift t y)) /\
    NoDup (iter out) /\ In (target_name t) (iter out) /\
    (forall i, i < nrows X -> i < length y ->
       df_cell out (target_name t) i = delayed_cell y t i) /\
    (reindex (nrows X) (shift t y) <> shift t xs ->
       df_col out (feature_name "target" t) <> Some (shift t xs)).
Proof.
  intros HX Hne Hc Hdf Hdt Ht.
  split; [reflexivity|]. split.
  - exists (features_frame self X). split; [now apply delay_features_step_ok|].
    apply (df_col_features_frame_new self X "target" xs t); auto. lia.
  - eexists. split; [now apply (transform_ok self (Some X))|].
    simpl frame_of.
    pose proof (wf_features_frame self X HX) as H1.
    pose proof (nrows_transform self (Some X) (Some y) HX) as HN.
    simpl frame_of in HN. apply df_empty_false in Hne.
    destruct (Nat.ltb_spec 0 (nrows X)) as [_|]; [|lia].
    assert (E : df_col (delay_target_step self (features_frame self X) (Some y))
                       (target_name t)
                = Some (reindex (nrows X) (shift t y))).
    { rewrite <- HN. apply df_col_delay_target_step_new; auto. lia. }
    split; [exact E|]. split; [|split; [|split]].
    + apply (wf_delay_target_step self _ (Some y)) in H1. apply H1.
    + eapply df_col_in_iter. exact E.
    + intros i Hi Hy. unfold df_cell. rewrite E.
      rewrite nth_error_reindex_same; rewrite ?length_shift; auto.
      apply nth_error_shift_cell; lia.
    + intros Hdiff. change (feature_name "target" t) with (target_name t).
      rewrite E. congruence.
Qed.

Lemma C10_target_name_collision_witness :
  let X := mkDataFrame 3 [("target", vals [10; 20; 30]%Z)] in
  let self := init 1 true true 1 0 in
  wf X /\ df_empty X = false /\
  df_col X "target" = Some (vals [10; 20; 30]%Z) /\
  delay_features self = true /\ delay_target self = true /\
  (Z.max 1 (start_delay_for_target self) <= 1 <= max_delay self)%Z /\
  exists out,
    transform self (Some X) (Some (vals [1; 2; 3]%Z)) = Ok out /\
    df_col out "target_delay_1" = Some [NA; Some 1; Some 2]%Z.
Proof.
  intros X self.
  assert (H1 : wf X).
  { split; simpl; repeat constructor. simpl. tauto. }
  assert (H2 : df_empty X = false) by reflexivity.
  assert (H3 : df_col X "target" = Some (vals [10; 20; 30]%Z)) by reflexivity.
  assert (H4 : delay_features self = true) by reflexivity.
  assert (H5 : delay_target self = true) by reflexivity.
  assert (H6 : (Z.max 1 (start_delay_for_target self) <= 1 <= max_delay self)%Z)
    by (simpl; lia).
  repeat (split; [assumption|]).
  destruct (C10_target_name_collision self X (vals [1; 2; 3]%Z)
              (vals [10; 20; 30]%Z) 1 H1 H2 H3 H4 H5 H6)
    as (_ & _ & out & Hout & Hcol & _).
  exists out. split; [exact Hout | exact Hcol].
Defined.

(** ** The store model agrees with the functional one and leaves the
    caller's objects alone *)

Lemma update_last (h : store) o o' : update (length h) o' (h ++ [o]) = h ++ [o'].
Proof. induction h as [|x h IH]; simpl; congruence. Qed.

Lemma nth_error_last (h : store) o : nth_error (h ++ [o]) (length h) = Some o.
Proof. rewrite nth_error_app2, Nat.sub_diag; auto. Qed.

Lemma for_each_setitem kwargs :
  forall (h : store) Xv,
    for_each kwargs (fun kv => df_setitem (length h) (fst kv) (snd kv))
             (h ++ [ODataFrame Xv])
    = (Ok tt, h ++ [ODataFrame (assign Xv kwargs)]).
Proof.
  induction kwargs as [|[k v] kwargs IH]; intros h Xv; simpl; auto.
  unfold bindM, df_setitem, bindM, load_frame, write.
  rewrite nth_error_last, update_last. simpl. apply IH.
Qed.

(** [assign] allocates the table it returns and writes nowhere else. *)
Lemma df_assign_spec X kwargs (h : store) Xv :
  nth_error h X = Some (ODataFrame Xv) ->
  df_assign X kwargs h = (Ok (length h), h ++ [ODataFrame (assign Xv kwargs)]).
Proof.
  intros HX. unfold df_assign, bindM at 1, df_copy, bindM at 1, load_frame, new.
  rewrite HX. unfold bindM. now rewrite for_each_setitem.
Qed.

Lemma nth_error_extend (h l : store) r o :
  nth_error h r = Some o -> nth_error (h ++ l) r = Some o.
Proof.
  intros H. rewrite nth_error_app1; auto.
  apply nth_error_Some. congruence.
Qed.

(** A run of [transform_refs], step by step: what it returns, the store
    it leaves, and where the returned table lives. *)
Lemma transform_refs_run self X y Xv yv (h : store) :
  frame_at h X Xv -> series_at h y yv ->
  exists l r,
    transform_refs self X y h =
      (match transform self Xv yv with
       | Ok _ => Ok r
       | Raise e => Raise e
       end, h ++ l) /\
    (forall out, transform self Xv yv = Ok out ->
                 nth_error (h ++ l) r = Some (ODataFrame out)) /\
    (forall out, transform self Xv yv = Ok out ->
                 delay_features self && negb (df_empty (frame_of Xv)) = true \/
                 (delay_target self = true /\ yv <> None) ->
                 length h <= r).
Proof.
  intros HX Hy.
  unfold transform, transform_refs, _convert_to_woodwork_structure,
    _convert_woodwork_types_wrapper.
  (* the table the run starts from, and the store it is in *)
  assert (H0 : exists r0 l0,
             (match X with
              | None => new (ODataFrame empty_frame)
              | Some X => ret X
              end) h = (Ok r0, h ++ l0) /\
             nth_error (h ++ l0) r0 = Some (ODataFrame (frame_of Xv))).
  { destruct X as [r|], Xv as [v|]; simpl in HX; try tauto.
    - exists r, []. unfold ret. now rewrite app_nil_r.
    - exists (length h), [ODataFrame empty_frame]. unfold new. split; auto.
      apply nth_error_last. }
  destruct H0 as (r0 & l0 & E0 & Hr0).
  unfold bindM at 1. rewrite E0.
  unfold bindM at 1, ret at 1. unfold bindM at 1, load_frame. rewrite Hr0.
  unfold bindM at 1, ret at 1.
  assert (Hy' : series_at (h ++ l0) y yv).
  { destruct y, yv; simpl in *; auto. now apply nth_error_extend. }
  set (X0 := frame_of Xv) in *.
  unfold delay_features_step.
  (* the feature step *)
  assert (H1 : match (if delay_features self && negb (df_empty X0)
                      then items <- feature_items self X0 ;;
                           Ok (assign X0 (py_dict items))
                      else Ok X0) with
               | Ok X1 =>
                   exists r1 l1,
                     (if delay_features self && negb (df_empty X0)
                      then items <<- lift (feature_items self X0) ;;
                           df_assign r0 (py_dict items)
                      else ret r0) (h ++ l0) = (Ok r1, h ++ l1) /\
                     nth_error (h ++ l1) r1 = Some (ODataFrame X1) /\
                     series_at (h ++ l1) y yv /\
                     (delay_features self && negb (df_empty X0) = true ->
                      length h <= r1)
               | Raise e =>
                   (if delay_features self && negb (df_empty X0)
                    then items <<- lift (feature_items self X0) ;;
                         df_assign r0 (py_dict items)
                    else ret r0) (h ++ l0) = (Raise e, h ++ l0)
               end).
  { destruct (delay_features self && negb (df_empty X0)).
    - unfold bindM, lift. destruct (feature_items self X0) as [items|e]; simpl.
      + rewrite (df_assign_spec r0 _ (h ++ l0) X0 Hr0).
        exists (length (h ++ l0)), (l0 ++ [ODataFrame (assign X0 (py_dict items))]).
        rewrite !app_assoc. split; [reflexivity|]. split; [|split].
        * apply nth_error_last.
        * destruct y, yv; simpl in *; auto. now apply nth_error_extend.
        * intros _. rewrite length_app. lia.
      + reflexivity.
    - exists r0, l0. unfold ret. repeat split; try assumption. discriminate. }
  destruct (if delay_features self && negb (df_empty X0)
            then items <- feature_items self X0 ;; Ok (assign X0 (py_dict items))
            else Ok X0) as [X1|e]; simpl bind.
  2:{ exists l0, 0. unfold bindM at 1. rewrite H1. split; [reflexivity|].
      split; discriminate. }
  destruct H1 as (r1 & l1 & E1 & Hr1 & Hy1 & Hfresh).
  unfold bindM at 1. rewrite E1.
  (* the target step *)
  unfold delay_target_step.
  destruct y as [ry|], yv as [ys|]; simpl in Hy1; try tauto; simpl option_map.
  - destruct (delay_target self).
    + unfold bindM at 1. unfold bindM at 1, load_series. rewrite Hy1.
      rewrite (df_assign_spec r1 _ _ X1 Hr1). unfold ret.
      exists (l1 ++ [ODataFrame (assign X1 (py_dict (target_items self ys)))]),
             (length (h ++ l1)).
      rewrite !app_assoc. split; [reflexivity|]. split.
      * intros out [= <-]. apply nth_error_last.
      * intros out _ _. rewrite length_app. lia.
    + unfold bindM, ret. exists l1, r1. split; [reflexivity|]. split.
      * now intros out [= <-].
      * intros out _ [Hc|[Hc _]]; [now apply Hfresh | discriminate Hc].
  - unfold bindM, ret. exists l1, r1. split; [reflexivity|]. split.
    + now intros out [= <-].
    + intros out _ [Hc|[_ Hc]]; [now apply Hfresh | congruence].
Qed.

(** On references to a table and a Series, [transform_refs] returns a
    reference to the table [transform] computes, or raises as it does, and
    the store it leaves is the one it found followed by new objects. *)
Theorem transform_refs_correct self X y Xv yv (h : store) :
  frame_at h X Xv -> series_at h y yv ->
  exists l r,
    transform_refs self X y h =
      (match transform self Xv yv with
       | Ok _ => Ok r
       | Raise e => Raise e
       end, h ++ l) /\
    forall out, transform self Xv yv = Ok out ->
                nth_error (h ++ l) r = Some (ODataFrame out).
Proof.
  intros HX Hy.
  destruct (transform_refs_run self X y Xv yv h HX Hy) as (l & r & E & Hout & _).
  exists l, r. split; [exact E | exact Hout].
Qed.

Lemma appends_ret {A : Type} (a : A) : appends (ret a).
Proof. intros h. exists []. simpl. now rewrite app_nil_r. Qed.

Lemma appends_lift {A : Type} (r : result A) : appends (lift r).
Proof. intros h. exists []. simpl. now rewrite app_nil_r. Qed.

Lemma appends_new o : appends (new o).
Proof. intros h. now exists [o]. Qed.

Lemma appends_load_frame r : appends (load_frame r).
Proof.
  intros h. exists []. unfold load_frame. rewrite app_nil_r.
  destruct (nth_error h r) as [[X|s]|]; reflexivity.
Qed.

Lemma appends_load_series r : appends (load_series r).
Proof.
  intros h. exists []. unfold load_series. rewrite app_nil_r.
  destruct (nth_error h r) as [[X|s]|]; reflexivity.
Qed.

Lemma appends_bindM {A B : Type} (m : M A) (k : A -> M B) :
  appends m -> (forall a, appends (k a)) -> appends (bindM m k).
Proof.
  intros Hm Hk h. unfold bindM. destruct (Hm h) as [l Hl].
  destruct (m h) as [[a|e] h']; simpl in Hl; subst h'.
  - destruct (Hk a (h ++ l)) as [l' Hl']. exists (l ++ l').
    now rewrite Hl', app_assoc.
  - now exists l.
Qed.

Lemma appends_df_assign X kwargs : appends (df_assign X kwargs).
Proof.
  intros h. destruct (nth_error h X) as [[Xv|s]|] eqn:E.
  - rewrite (df_assign_spec X kwargs h Xv E). eexists. reflexivity.
  - exists []. unfold df_assign, bindM, df_copy, bindM, load_frame.
    rewrite E. simpl. now rewrite app_nil_r.
  - exists []. unfold df_assign, bindM, df_copy, bindM, load_frame.
    rewrite E. simpl. now rewrite app_nil_r.
Qed.

Lemma appends_transform_refs self X y : appends (transform_refs self X y).
Proof.
  unfold transform_refs.
  repeat first
    [ apply appends_df_assign
    | apply appends_ret | apply appends_lift | apply appends_new
    | apply appends_load_frame | apply appends_load_series
    | apply appends_bindM; [|intros ?]
    | match goal with
      | |- appends (match ?x with _ => _ end) => destruct x
      end ].
Qed.

(** C7: [transform] is a function of the table, the target and the
    configuration.  The seed has no effect: two transformers that differ in
    [random_state] only return the same result, in the functional model and
    on the store, where they also leave the same store.  Nothing the caller
    holds is mutated: every object of the store, the table and the target
    among them, is the same after the run as before, whether [transform]
    returns or raises.  And what is returned is determined by the values of
    [X] and [y]: from two stores that hold the same table and target,
    possibly elsewhere, the runs return references to equal tables. *)
Theorem C7_pure_and_seed_independent md df dt g rs1 rs2 :
  let self1 := init md df dt g rs1 in
  let self2 := init md df dt g rs2 in
  (forall Xv yv, transform self1 Xv yv = transform self2 Xv yv) /\
  (forall X y h, transform_refs self1 X y h = transform_refs self2 X y h) /\
  (forall X y (h : store) a o,
     nth_error h a = Some o ->
     nth_error (snd (transform_refs self1 X y h)) a = Some o) /\
  (forall X y X' y' Xv yv (h h' : store) r h1,
     frame_at h X Xv -> series_at h y yv ->
     frame_at h' X' Xv -> series_at h' y' yv ->
     transform_refs self1 X y h = (Ok r, h1) ->
     exists out r' h1',
       transform_refs self2 X' y' h' = (Ok r', h1') /\
       nth_error h1 r = Some (ODataFrame out) /\
       nth_error h1' r' = Some (ODataFrame out) /\
       transform self1 Xv yv = Ok out).
Proof.
  intros self1 self2. split; [reflexivity|]. split; [reflexivity|]. split.
  - intros X y h a o Ha.
    destruct (appends_transform_refs self1 X y h) as [l ->].
    now apply nth_error_extend.
  - intros X y X' y' Xv yv h h' r h1 HX Hy HX' Hy' Hrun.
    destruct (transform_refs_correct self1 X y Xv yv h HX Hy)
      as (l & r0 & E & Hout).
    destruct (transform_refs_correct self2 X' y' Xv yv h' HX' Hy')
      as (l' & r0' & E' & Hout').
    change (transform self2 Xv yv) with (transform self1 Xv yv) in *.
    rewrite Hrun in E.
    destruct (transform self1 Xv yv) as [out|e]; [|discriminate E].
    injection E as -> ->.
    exists out, r0', (h' ++ l'). repeat split; auto.
Qed.

Lemma C7_pure_and_seed_independent_witness :
  let y := vals [1; 2; 3]%Z in
  let h := [ODataFrame (mkDataFrame 3 [("a", vals [7; 8; 9]%Z)]); OSeries y] in
  transform_refs (init 1 true true 1 0) (Some 0) (Some 1) h =
  transform_refs (init 1 true true 1 42) (Some 0) (Some 1) h /\
  nth_error (snd (transform_refs (init 1 true true 1 0) (Some 0) (Some 1) h)) 0
  = Some (ODataFrame (mkDataFrame 3 [("a", vals [7; 8; 9]%Z)])) /\
  nth_error (snd (transform_refs (init 1 true true 1 0) (Some 0) (Some 1) h)) 1
  = Some (OSeries y).
Proof.
  intros y h.
  destruct (C7_pure_and_seed_independent 1 true true 1 0 42)
    as (_ & Hseed & Hkeep & _).
  split; [apply Hseed|]. split; apply Hkeep; reflexivity.
Defined.

(** * Further properties of the transformer *)

(** ** More on dicts, Series and [assign] *)

Lemma dict_set_new {V : Type} (d : list (string * V)) k v :
  ~ In k (keys d) -> dict_set d k v = d ++ [(k, v)].
Proof.
  induction d as [|[k' v'] d IH]; simpl; auto.
  intros Hnin. destruct (String.eqb_spec k' k) as [->|_]; [tauto|].
  f_equal. apply IH. tauto.
Qed.

Lemma keys_app {V : Type} (d1 d2 : list (string * V)) :
  keys (d1 ++ d2) = keys d1 ++ keys d2.
Proof. apply map_app. Qed.

(** Updating with pairs under new, distinct keys appends them. *)
Lemma dict_update_fresh {V : Type} (other d : list (string * V)) :
  NoDup (keys d ++ keys other) -> dict_update d other = d ++ other.
Proof.
  unfold dict_update. revert d.
  induction other as [|[k v] other IH]; intros d Hnd; simpl.
  - now rewrite app_nil_r.
  - simpl in Hnd. rewrite dict_set_new.
    + rewrite IH; [now rewrite <- app_assoc|].
      rewrite keys_app. simpl. now rewrite <- app_assoc.
    + apply NoDup_remove_2 in Hnd. rewrite in_app_iff in Hnd. tauto.
Qed.

Lemma py_dict_NoDup {V : Type} (items : list (string * V)) :
  NoDup (keys items) -> py_dict items = items.
Proof. intros H. apply (dict_update_fresh items []). exact H. Qed.

Lemma NoDup_range lo hi : NoDup (range lo hi).
Proof.
  unfold range. apply Finite.Injective_map_NoDup; [|apply seq_NoDup].
  intros i j E. lia.
Qed.

Lemma NoDup_flat_map {A B : Type} (f : A -> list B) (xs : list A) :
  NoDup xs -> (forall x, In x xs -> NoDup (f x)) ->
  (forall x1 x2 b, In x1 xs -> In x2 xs -> In b (f x1) -> In b (f x2) -> x1 = x2) ->
  NoDup (flat_map f xs).
Proof.
  induction xs as [|x xs IH]; intros Hnd Hf Hdisj; simpl; [constructor|].
  inversion Hnd as [|? ? Hnin Hnd']; subst.
  apply NoDup_app.
  - apply Hf. simpl. auto.
  - apply IH; auto.
    + intros; apply Hf; simpl; auto.
    + intros x1 x2 b H1 H2. apply Hdisj; simpl; auto.
  - intros b Hb Hb'. apply in_flat_map in Hb'. destruct Hb' as (x' & Hx' & Hb').
    assert (x = x') by (apply (Hdisj x x' b); simpl; auto).
    subst x'. tauto.
Qed.

(** The names of the first comprehension are distinct. *)
Lemma NoDup_keys_feature_pairs self X :
  wf X -> NoDup (keys (feature_pairs self X)).
Proof.
  intros [Hnd _]. unfold feature_pairs, keys. rewrite flat_map_concat_map.
  rewrite concat_map, map_map, <- flat_map_concat_map.
  apply NoDup_flat_map.
  - apply NoDup_range.
  - intros t _. rewrite map_map. simpl.
    rewrite <- (map_map fst (fun c => feature_name c t)).
    apply Finite.Injective_map_NoDup; [|exact Hnd].
    intros c1 c2 E. now apply feature_name_inj in E.
  - intros t1 t2 b _ _ H1 H2. rewrite map_map in H1, H2. simpl in *.
    apply in_map_iff in H1. destruct H1 as (c1 & <- & _).
    apply in_map_iff in H2. destruct H2 as (c2 & E & _).
    apply feature_name_inj in E. symmetry. tauto.
Qed.

Lemma keys_target_items self y :
  keys (target_items self y) =
  map target_name (range (start_delay_for_target self) (max_delay self + 1)).
Proof. unfold target_items, keys. now rewrite map_map. Qed.

Lemma NoDup_keys_target_items self y : NoDup (keys (target_items self y)).
Proof.
  rewrite keys_target_items.
  apply Finite.Injective_map_NoDup; [|apply NoDup_range].
  intros t1 t2. apply target_name_inj.
Qed.

(** Storing columns of the right length under new, distinct names appends
    them. *)
Lemma assign_fresh kwargs :
  forall X,
    Forall (fun kv => length (snd kv) = nrows X) kwargs ->
    NoDup (keys (columns X) ++ keys kwargs) ->
    assign X kwargs = mkDataFrame (nrows X) (columns X ++ kwargs).
Proof.
  induction kwargs as [|[k v] kwargs IH]; intros X Hlen Hnd.
  - simpl. rewrite app_nil_r. now destruct X.
  - inversion Hlen as [|? ? Hv Hlen']; subst. simpl in Hv.
    assert (E : setitem X k v = mkDataFrame (nrows X) (columns X ++ [(k, v)])).
    { unfold setitem, ensure_valid_index.
      assert (Hc : (nrows X =? 0) && (0 <? length v) = false).
      { rewrite Hv. destruct (nrows X); reflexivity. }
      rewrite Hc. rewrite reindex_same by assumption.
      rewrite dict_set_new; auto.
      simpl in Hnd. apply NoDup_remove_2 in Hnd. rewrite in_app_iff in Hnd. tauto. }
    rewrite assign_cons, E, IH; simpl.
    + now rewrite <- app_assoc.
    + exact Hlen'.
    + rewrite keys_app. simpl in *. now rewrite <- app_assoc.
Qed.

(** The table without rows and columns becomes the table of the columns
    stored in it. *)
Lemma assign_empty_frame kwargs m :
  Forall (fun kv => length (snd kv) = m) kwargs -> kwargs <> [] ->
  NoDup (keys kwargs) ->
  assign empty_frame kwargs = mkDataFrame m kwargs.
Proof.
  intros Hlen Hne Hnd. destruct kwargs as [|[k v] kwargs]; [congruence|].
  inversion Hlen as [|? ? Hv Hlen']. simpl in Hv. subst m.
  assert (E : setitem empty_frame k v = mkDataFrame (length v) [(k, v)]).
  { unfold setitem, ensure_valid_index. simpl.
    destruct v; simpl; [reflexivity|].
    rewrite reindex_same by reflexivity. reflexivity. }
  rewrite assign_cons, E, assign_fresh; auto.
Qed.

Lemma firstn_repeat {A : Type} (a : A) n k :
  firstn n (repeat a k) = repeat a (Nat.min n k).
Proof.
  revert k. induction n as [|n IH]; intros [|k]; simpl; auto.
  now rewrite IH.
Qed.

(** A delayed Series is a run of missing markers followed by the Series
    without its last cells. *)
Lemma shift_closed t (s : Series) :
  (0 <= t)%Z ->
  shift t s = repeat NA (Nat.min (Z.to_nat t) (length s))
              ++ firstn (length s - Z.to_nat t) s.
Proof.
  intros Ht. unfold shift. destruct (Z.leb_spec 0 t); [|lia].
  rewrite firstn_app, firstn_repeat, repeat_length.
  now rewrite Nat.min_comm.
Qed.

(** Delays add up. *)
Lemma shift_shift t1 t2 (s : Series) :
  (0 <= t1)%Z -> (0 <= t2)%Z -> shift t2 (shift t1 s) = shift (t1 + t2) s.
Proof.
  intros H1 H2. apply nth_error_ext. intros i.
  destruct (Nat.ltb_spec i (length s)) as [Hi|Hi].
  - rewrite (nth_error_shift t2 (shift t1 s) i) by (rewrite ?length_shift; lia).
    rewrite (nth_error_shift (t1 + t2) s i) by lia.
    destruct (Nat.ltb_spec i (Z.to_nat t2)), (Nat.ltb_spec i (Z.to_nat (t1 + t2)));
      try lia; auto.
    + rewrite (nth_error_shift t1 s) by lia.
      destruct (Nat.ltb_spec (i - Z.to_nat t2) (Z.to_nat t1)); [reflexivity | lia].
    + rewrite (nth_error_shift t1 s) by lia.
      destruct (Nat.ltb_spec (i - Z.to_nat t2) (Z.to_nat t1)); [lia|].
      f_equal. lia.
  - transitivity (@None cell); [|symmetry];
      apply nth_error_None; rewrite !length_shift; lia.
Qed.

Lemma nth_error_firstn_agree (y y' : Series) i j :
  firstn i y = firstn i y' -> j < i -> nth_error y j = nth_error y' j.
Proof.
  intros E Hj.
  pose proof (nth_error_firstn i y j) as H1.
  pose proof (nth_error_firstn i y' j) as H2.
  destruct (Nat.ltb_spec j i); [|lia]. now rewrite <- H1, <- H2, E.
Qed.

(** ** The whole result *)

Lemma length_range lo hi : length (range lo hi) = Z.to_nat (hi - lo).
Proof. unfold range. now rewrite length_map, length_seq. Qed.

Lemma length_feature_pairs self X :
  length (feature_pairs self X)
  = Z.to_nat (max_delay self) * length (columns X).
Proof.
  unfold feature_pairs.
  replace (Z.to_nat (max_delay self))
    with (length (range 1 (max_delay self + 1)))
    by (rewrite length_range; lia).
  induction (range 1 (max_delay self + 1)) as [|t ts IH]; simpl; auto.
  now rewrite length_app, length_map, IH.
Qed.

Lemma keys_delayed_columns self X y :
  keys (delayed_columns self X y) = iter X ++ assigned_names self X y.
Proof.
  unfold delayed_columns, assigned_names, target_keys, iter.
  rewrite !keys_app. f_equal. f_equal.
  - now destruct (_ && _).
  - destruct y; auto. now destruct (delay_target self).
Qed.

(** X3: When all names, those of [X] and the generated ones, are distinct and
    the target has one value per row of [X], the result is [X] followed by
    the delayed features, [t] outermost, and the delayed target:
    [max_delay] new columns per column of [X] and one per target delay. *)
Theorem transform_whole_table self X y :
  wf X ->
  (forall y', y = Some y' -> length y' = nrows X) ->
  NoDup (iter X ++ assigned_names self X y) ->
  transform self (Some X) y
  = Ok (mkDataFrame (nrows X) (delayed_columns self X y)) /\
  length (delayed_columns self X y)
  = length (columns X)
    + (if delay_features self && negb (df_empty X)
       then Z.to_nat (max_delay self) * length (columns X) else 0)
    + (if target_columns_produced self y
       then Z.to_nat (max_delay self + 1 - start_delay_for_target self)
       else 0).
Proof.
  intros HX Hy Hnd. split.
  - rewrite (transform_ok self (Some X)) by exact HX. f_equal. simpl frame_of.
    unfold delayed_columns, assigned_names in *.
    assert (E1 : features_frame self X
                 = mkDataFrame (nrows X)
                     (columns X ++ (if delay_features self && negb (df_empty X)
                                    then feature_pairs self X else []))).
    { unfold features_frame.
      destruct (delay_features self && negb (df_empty X)).
      - rewrite py_dict_NoDup by now apply NoDup_keys_feature_pairs.
        apply assign_fresh; [now apply feature_pairs_length|].
        rewrite app_assoc in Hnd. now apply NoDup_app_remove_r in Hnd.
      - rewrite app_nil_r. now destruct X. }
    rewrite E1. unfold delay_target_step, target_keys in *.
    destruct y as [y'|]; [|now rewrite app_nil_r].
    destruct (delay_target self); [|now rewrite app_nil_r].
    rewrite py_dict_NoDup by apply NoDup_keys_target_items.
    rewrite assign_fresh; simpl.
    + now rewrite <- app_assoc.
    + eapply Forall_impl; [|apply target_items_length].
      intros kv E. simpl in E. rewrite E. now apply Hy.
    + rewrite keys_app. unfold iter in Hnd.
      destruct (delay_features self && negb (df_empty X));
        now rewrite <- app_assoc.
  - unfold delayed_columns. rewrite !length_app, Nat.add_assoc. f_equal.
    + f_equal. destruct (_ && _); auto. apply length_feature_pairs.
    + unfold target_columns_produced, target_items. destruct y as [y'|]; auto.
      destruct (delay_target self); simpl; auto.
      rewrite length_map, length_range.
      destruct (Z.leb_spec (start_delay_for_target self) (max_delay self)); lia.
Qed.

Lemma transform_whole_table_witness :
  let X := mkDataFrame 3 [("a", vals [7; 8; 9]%Z)] in
  let y := vals [1; 2; 3]%Z in
  let self := init 1 true true 0 0 in
  wf X /\
  (forall y', Some y = Some y' -> length y' = nrows X) /\
  NoDup (iter X ++ assigned_names self X (Some y)) /\
  transform self (Some X) (Some y)
  = Ok (mkDataFrame 3 [("a", vals [7; 8; 9]%Z);
                       ("a_delay_1", [NA; Some 7; Some 8]%Z);
                       ("target_delay_1", [NA; Some 1; Some 2]%Z)]).
Proof.
  intros X y self.
  assert (H1 : wf X).
  { split; simpl; repeat constructor. simpl. tauto. }
  assert (H2 : forall y', Some y = Some y' -> length y' = nrows X).
  { intros y' [= <-]. reflexivity. }
  assert (H3 : NoDup (iter X ++ assigned_names self X (Some y))).
  { simpl. repeat constructor; simpl; intuition discriminate. }
  repeat (split; [assumption|]).
  exact (proj1 (transform_whole_table self X (Some y) H1 H2 H3)).
Defined.

(** X4: Without a table, as soon as one target delay is in range, the result
    is exactly the delayed targets, by increasing delay, on as many rows as
    [y] has. *)
Theorem transform_target_only self (y : Series) :
  target_columns_produced self (Some y) = true ->
  transform self None (Some y)
  = Ok (mkDataFrame (length y) (target_items self y)) /\
  keys (target_items self y)
  = map target_name (range (start_delay_for_target self) (max_delay self + 1)).
Proof.
  intros Hp. split; [|apply keys_target_items].
  rewrite transform_ok by exact I. f_equal. simpl frame_of.
  assert (E : features_frame self empty_frame = empty_frame).
  { unfold features_frame. simpl. now rewrite andb_false_r. }
  rewrite E.
  destruct (delay_target_step_run self empty_frame y Hp) as [-> Hne].
  rewrite py_dict_NoDup in * by apply NoDup_keys_target_items.
  apply assign_empty_frame; auto.
  - apply target_items_length.
  - apply NoDup_keys_target_items.
Qed.

Lemma transform_target_only_witness :
  target_columns_produced (init 2 true true 5 0) (Some (vals [1; 2; 3]%Z)) = true /\
  transform (init 2 true true 5 0) None (Some (vals [1; 2; 3]%Z))
  = Ok (mkDataFrame 3 [("target_delay_0", vals [1; 2; 3]%Z);
                       ("target_delay_1", [NA; Some 1; Some 2]%Z);
                       ("target_delay_2", [NA; NA; Some 1]%Z)]).
Proof.
  assert (H : target_columns_produced (init 2 true true 5 0)
                (Some (vals [1; 2; 3]%Z)) = true) by reflexivity.
  split; [exact H|].
  exact (proj1 (transform_target_only (init 2 true true 5 0) (vals [1; 2; 3]%Z) H)).
Defined.

(** ** No look-ahead *)

Lemma same_upto_refl i s : same_upto i s s.
Proof. split; auto. Qed.

Lemma same_upto_opt_refl i o : same_upto_opt i o o.
Proof. destruct o; simpl; auto using same_upto_refl. Qed.

Lemma firstn_same_upto i (s s' : Series) :
  length s = length s' -> firstn (S i) s = firstn (S i) s' -> same_upto i s s'.
Proof.
  intros Hlen E. split; auto. intros j Hj.
  apply (nth_error_firstn_agree s s' (S i)); auto. lia.
Qed.

(** Row [j] of a delayed Series reads row [j - t]: two Series that agree
    that far back give the same delayed rows. *)
Lemma shift_same_upto t i (s s' : Series) :
  (0 <= t)%Z -> length s = length s' ->
  (forall j, j + Z.to_nat t <= i -> nth_error s j = nth_error s' j) ->
  same_upto i (shift t s) (shift t s').
Proof.
  intros Ht Hlen Hag. split; [now rewrite !length_shift|].
  intros j Hj. destruct (Nat.ltb_spec j (length s)) as [Hlt|Hge].
  - rewrite !nth_error_shift by lia.
    destruct (Nat.ltb_spec j (Z.to_nat t)); auto. apply Hag. lia.
  - transitivity (@None cell); [|symmetry];
      apply nth_error_None; rewrite length_shift; lia.
Qed.

Lemma reindex_same_upto n n' i (s s' : Series) :
  n = n' -> same_upto i s s' ->
  nth_error (reindex n s) i = nth_error (reindex n' s') i.
Proof.
  intros <- [Hlen Hag]. destruct (Nat.ltb_spec i n) as [Hlt|Hge].
  - rewrite !nth_error_reindex by assumption. rewrite <- Hlen.
    destruct (Nat.ltb_spec i (length s)); auto.
  - transitivity (@None cell); [|symmetry];
      apply nth_error_None; rewrite length_reindex; lia.
Qed.

Lemma df_empty_same X X' :
  nrows X = nrows X' -> iter X = iter X' -> df_empty X = df_empty X'.
Proof.
  intros Hn Hk. unfold df_empty. rewrite Hn. f_equal.
  apply (f_equal (@length string)) in Hk. unfold iter, keys in Hk.
  rewrite !length_map in Hk. now rewrite Hk.
Qed.

Lemma in_keys_feature_pairs_same self X X' k :
  iter X = iter X' ->
  In k (keys (feature_pairs self X)) <-> In k (keys (feature_pairs self X')).
Proof. intros E. rewrite !in_keys_feature_pairs, E. reflexivity. Qed.

(** The feature step keeps agreement up to row [i]. *)
Lemma features_frame_same_upto self X X' i name :
  wf X -> wf X' -> nrows X = nrows X' -> iter X = iter X' ->
  (forall c, same_upto_opt i (df_col X c) (df_col X' c)) ->
  same_upto_opt i (df_col (features_frame self X) name)
                  (df_col (features_frame self X') name).
Proof.
  intros HX HX' Hn Hk Hag.
  destruct (delay_features self && negb (df_empty X)) eqn:Hc.
  2:{ unfold features_frame. rewrite <- (df_empty_same X X' Hn Hk), Hc. apply Hag. }
  apply andb_true_iff in Hc. destruct Hc as [Hdf Hne].
  apply negb_true_iff in Hne.
  assert (Hne' : df_empty X' = false) by now rewrite <- (df_empty_same X X').
  destruct (in_dec string_dec name (keys (feature_pairs self X))) as [Hin|Hnin].
  - pose proof Hin as Hin'. apply in_keys_feature_pairs in Hin.
    destruct Hin as (c & t & Hci & Ht & ->).
    destruct (in_iter_col X c Hci) as [s Hs].
    rewrite Hk in Hci. destruct (in_iter_col X' c Hci) as [s' Hs'].
    rewrite (df_col_features_frame_new self X c s t),
            (df_col_features_frame_new self X' c s' t) by assumption.
    specialize (Hag c). rewrite Hs, Hs' in Hag. destruct Hag as [Hlen Hag].
    simpl. apply shift_same_upto; auto; try lia.
    intros j Hj. apply Hag. lia.
  - rewrite !df_col_features_frame_old; auto.
    now rewrite <- (in_keys_feature_pairs_same self X X').
Qed.

Lemma target_keys_same self (y y' : Series) :
  target_keys self (Some y) = target_keys self (Some y').
Proof.
  unfold target_keys. destruct (delay_target self); auto.
  now rewrite !keys_target_items.
Qed.

(** Row [i] of the result reads rows [0 .. i] of the table and rows
    [0 .. i - start] of the target. *)
Lemma transform_row_same self X X' y y' i :
  (0 <= start_delay_for_target self)%Z ->
  wf X -> wf X' -> nrows X = nrows X' -> iter X = iter X' ->
  (forall c, same_upto_opt i (df_col X c) (df_col X' c)) ->
  match y, y' with
  | Some s, Some s' =>
      length s = length s' /\
      forall j, j + Z.to_nat (start_delay_for_target self) <= i ->
                nth_error s j = nth_error s' j
  | None, None => True
  | _, _ => False
  end ->
  let out := delay_target_step self (features_frame self X) y in
  let out' := delay_target_step self (features_frame self X') y' in
  nrows out = nrows out' /\
  forall name, df_cell out name i = df_cell out' name i.
Proof.
  intros Hst HX HX' Hn Hk Hag Hy out out'.
  pose proof (wf_features_frame self X HX) as H1.
  pose proof (wf_features_frame self X' HX') as H1'.
  assert (HN : nrows out = nrows out').
  { unfold out, out'. rewrite !nrows_delay_target_step, !nrows_features_frame, Hn.
    destruct y as [s|], y' as [s'|]; try tauto.
    destruct Hy as [-> _]. reflexivity. }
  split; [exact HN|]. intros name. unfold df_cell.
  assert (Hkeys : target_keys self y = target_keys self y').
  { destruct y, y'; try tauto. apply target_keys_same. }
  unfold out, out' in *. clear out out'.
  destruct (in_dec string_dec name (target_keys self y)) as [Hin|Hnin].
  - apply in_target_keys in Hin. destruct Hin as (Hdt & Hsome & t & Ht & ->).
    destruct y as [s|], y' as [s'|]; try tauto; try congruence.
    destruct Hy as [Hlen Hy].
    rewrite (df_col_delay_target_step_new self _ s t) by assumption.
    rewrite (df_col_delay_target_step_new self _ s' t) by assumption.
    apply reindex_same_upto; [exact HN|].
    apply shift_same_upto; auto; try lia.
    intros j Hj. apply Hy. lia.
  - assert (Hnin' : ~ In name (target_keys self y')) by now rewrite <- Hkeys.
    rewrite (df_col_delay_target_step_old self _ y) by assumption.
    rewrite (df_col_delay_target_step_old self _ y') by assumption.
    pose proof (features_frame_same_upto self X X' i name HX HX' Hn Hk Hag) as Hf.
    destruct (df_col (features_frame self X) name),
             (df_col (features_frame self X') name); simpl in *; try tauto.
    now apply reindex_same_upto.
Qed.

(** X5: Row [i] of the result depends on the rows [0 .. i] of the table and of
    the target only: two inputs with the same shape and column names that
    agree on those rows give results that agree on row [i], whatever the
    later rows hold. *)
Theorem transform_no_lookahead md df dt g rs X X' (y y' : option Series) i :
  let self := init md df dt g rs in
  wf X -> wf X' -> nrows X = nrows X' -> iter X = iter X' ->
  (forall c s s', df_col X c = Some s -> df_col X' c = Some s' ->
                  firstn (S i) s = firstn (S i) s') ->
  match y, y' with
  | Some s, Some s' => length s = length s' /\ firstn (S i) s = firstn (S i) s'
  | None, None => True
  | _, _ => False
  end ->
  exists out out',
    transform self (Some X) y = Ok out /\
    transform self (Some X') y' = Ok out' /\
    nrows out = nrows out' /\
    forall name, df_cell out name i = df_cell out' name i.
Proof.
  intros self HX HX' Hn Hk Hcols Hy.
  eexists _, _.
  split; [now apply (transform_ok self (Some X))|].
  split; [now apply (transform_ok self (Some X'))|].
  simpl frame_of. apply transform_row_same; auto.
  - apply start_delay_init_bounds.
  - intros c. destruct (df_col X c) as [s|] eqn:Es, (df_col X' c) as [s'|] eqn:Es';
      simpl; auto.
    + apply firstn_same_upto; eauto.
      rewrite (wf_col_length X c s), (wf_col_length X' c s'); auto.
    + apply df_col_in_iter in Es. rewrite Hk in Es.
      apply dict_get_None in Es'. tauto.
    + apply df_col_in_iter in Es'. rewrite <- Hk in Es'.
      apply dict_get_None in Es. tauto.
  - destruct y as [s|], y' as [s'|]; auto.
    destruct Hy as [Hlen E]. split; auto. intros j Hj.
    apply (nth_error_firstn_agree s s' (S i)); auto. lia.
Qed.

Lemma transform_no_lookahead_witness :
  let X := mkDataFrame 3 [("a", vals [1; 2; 3]%Z)] in
  let X' := mkDataFrame 3 [("a", vals [1; 2; 99]%Z)] in
  wf X /\ wf X' /\ nrows X = nrows X' /\ iter X = iter X' /\
  exists out out',
    transform (init 2 true true 1 0) (Some X) None = Ok out /\
    transform (init 2 true true 1 0) (Some X') None = Ok out' /\
    forall name, df_cell out name 1 = df_cell out' name 1.
Proof.
  intros X X'.
  assert (H1 : wf X) by (split; simpl; repeat constructor; simpl; tauto).
  assert (H2 : wf X') by (split; simpl; repeat constructor; simpl; tauto).
  assert (H3 : nrows X = nrows X') by reflexivity.
  assert (H4 : iter X = iter X') by reflexivity.
  repeat (split; [assumption|]).
  destruct (transform_no_lookahead 2 true true 1 0 X X' None None 1 H1 H2 H3 H4)
    as (out & out' & Ho & Ho' & _ & Hrow).
  - intros c s s'. unfold df_col, X, X'. cbn [columns dict_get].
    destruct (String.eqb "a" c); [|discriminate].
    intros [= <-] [= <-]. reflexivity.
  - exact I.
  - exists out, out'. auto.
Defined.

(** X6: With [gap == 0] the target of row [i] and of later rows never reaches
    row [i] of the result: two targets of one length that agree on the rows
    before [i] give results that agree on row [i]. *)
Theorem target_not_leaked md df dt rs X (y y' : Series) i :
  wf_opt X -> length y = length y' -> firstn i y = firstn i y' ->
  exists out out',
    transform (init md df dt 0 rs) X (Some y) = Ok out /\
    transform (init md df dt 0 rs) X (Some y') = Ok out' /\
    nrows out = nrows out' /\
    forall name, df_cell out name i = df_cell out' name i.
Proof.
  intros HX Hlen E. pose proof (wf_frame_of X HX) as H0.
  eexists _, _.
  split; [now apply transform_ok|]. split; [now apply transform_ok|].
  apply transform_row_same; auto.
  - simpl. lia.
  - intros c. apply same_upto_opt_refl.
  - split; auto. intros j Hj. simpl in Hj.
    apply (nth_error_firstn_agree y y' i); auto. lia.
Qed.

Lemma target_not_leaked_witness :
  let y := vals [1; 2; 3]%Z in
  let y' := vals [1; 2; 99]%Z in
  wf_opt None /\ length y = length y' /\ firstn 2 y = firstn 2 y' /\
  exists out out',
    transform (init 1 true true 0 0) None (Some y) = Ok out /\
    transform (init 1 true true 0 0) None (Some y') = Ok out' /\
    forall name, df_cell out name 2 = df_cell out' name 2.
Proof.
  intros y y'.
  assert (H1 : wf_opt None) by exact I.
  assert (H2 : length y = length y') by reflexivity.
  assert (H3 : firstn 2 y = firstn 2 y') by reflexivity.
  repeat (split; [assumption|]).
  destruct (target_not_leaked 1 true true 0 None y y' 2 H1 H2 H3)
    as (out & out' & Ho & Ho' & _ & Hrow).
  exists out, out'. auto.
Defined.

(** ** Edge cases of the delays *)

Lemma feature_column_of_result self X y c s t :
  wf X -> delay_features self = true -> df_empty X = false ->
  df_col X c = Some s -> (1 <= t <= max_delay self)%Z ->
  ~ In (feature_name c t) (target_keys self y) ->
  df_col (delay_target_step self (features_frame self X) y) (feature_name c t)
  = Some (shift t s).
Proof.
  intros HX Hdf Hne Hc Ht Hk.
  rewrite df_col_delay_target_step_old; auto using wf_features_frame.
  rewrite (df_col_features_frame_new self X c s t) by assumption. simpl.
  f_equal. apply reindex_same.
  rewrite length_shift, nrows_delay_target_step, nrows_features_frame.
  apply df_empty_false in Hne.
  rewrite (wf_col_length X c s) by assumption.
  destruct (Nat.ltb_spec 0 (nrows X)); lia.
Qed.

(** X7: The delayed column [c_delay_t] is [min(t, n)] missing markers followed
    by the first [n - t] values of [c], for a table of [n] rows; a delay of
    [n] or more leaves nothing but missing markers, and raises nothing. *)
Theorem feature_delay_closed_form self X y c s t :
  wf X -> delay_features self = true -> df_empty X = false ->
  df_col X c = Some s -> (1 <= t <= max_delay self)%Z ->
  ~ In (feature_name c t) (target_keys self y) ->
  exists out,
    transform self (Some X) y = Ok out /\
    df_col out (feature_name c t)
    = Some (repeat NA (Nat.min (Z.to_nat t) (nrows X))
            ++ firstn (nrows X - Z.to_nat t) s) /\
    (nrows X <= Z.to_nat t ->
     df_col out (feature_name c t) = Some (repeat NA (nrows X))).
Proof.
  intros HX Hdf Hne Hc Ht Hk.
  eexists. split; [now apply (transform_ok self (Some X))|]. simpl frame_of.
  rewrite (feature_column_of_result self X y c s t) by assumption.
  assert (Hs : length s = nrows X) by (eapply wf_col_length; eauto).
  rewrite shift_closed, Hs by lia. split; [reflexivity|].
  intros Hlong. f_equal.
  replace (nrows X - Z.to_nat t) with 0 by lia.
  rewrite Nat.min_r by lia. simpl. apply app_nil_r.
Qed.

Lemma feature_delay_closed_form_witness :
  let X := mkDataFrame 2 [("a", vals [7; 8]%Z)] in
  let self := init 3 true true 1 0 in
  wf X /\ delay_features self = true /\ df_empty X = false /\
  df_col X "a" = Some (vals [7; 8]%Z) /\ (1 <= 3 <= max_delay self)%Z /\
  ~ In (feature_name "a" 3) (target_keys self None) /\
  exists out,
    transform self (Some X) None = Ok out /\
    df_col out "a_delay_3" = Some [NA; NA].
Proof.
  intros X self.
  assert (H1 : wf X) by (split; simpl; repeat constructor; simpl; tauto).
  assert (H2 : delay_features self = true) by reflexivity.
  assert (H3 : df_empty X = false) by reflexivity.
  assert (H4 : df_col X "a" = Some (vals [7; 8]%Z)) by reflexivity.
  assert (H5 : (1 <= 3 <= max_delay self)%Z) by (simpl; lia).
  assert (H6 : ~ In (feature_name "a" 3) (target_keys self None))
    by (simpl; tauto).
  repeat (split; [assumption|]).
  destruct (feature_delay_closed_form self X None "a" _ 3 H1 H2 H3 H4 H5 H6)
    as (out & Ho & _ & Hlong).
  exists out. split; [exact Ho|]. apply Hlong. simpl. lia.
Defined.

(** X8: A table with columns but no rows, given a target: the feature
    step returns it as it is, and as soon as a target-delay column is stored
    the result has the rows of [y], and the columns the table came with are
    filled with missing markers. *)
Theorem rowless_table_takes_target_rows self X (y : Series) c s :
  wf X -> nrows X = 0 ->
  target_columns_produced self (Some y) = true ->
  df_col X c = Some s -> ~ In c (target_keys self (Some y)) ->
  delay_features_step self X = Ok X /\
  exists out,
    transform self (Some X) (Some y) = Ok out /\
    nrows out = length y /\
    df_col out c = Some (repeat NA (length y)).
Proof.
  intros HX Hz Hp Hc Hk. split.
  { unfold delay_features_step, df_empty. rewrite Hz. simpl.
    now rewrite andb_false_r. }
  eexists. split; [now apply (transform_ok self (Some X))|]. simpl frame_of.
  assert (HN : nrows (delay_target_step self (features_frame self X) (Some y))
               = length y).
  { rewrite nrows_delay_target_step, nrows_features_frame, Hz, Hp. reflexivity. }
  split; [exact HN|].
  rewrite original_column_kept, Hc; auto.
  - simpl. f_equal.
    assert (Hs : length s = 0) by (rewrite <- Hz; eapply wf_col_length; eauto).
    destruct s; [|discriminate]. rewrite reindex_nil. f_equal. exact HN.
  - unfold assigned_names, df_empty. rewrite Hz. simpl.
    now rewrite andb_false_r.
Qed.

Lemma rowless_table_takes_target_rows_witness :
  let X := mkDataFrame 0 [("a", [])] in
  let y := vals [1; 2; 3]%Z in
  let self := init 1 true true 1 0 in
  wf X /\ nrows X = 0 /\ target_columns_produced self (Some y) = true /\
  df_col X "a" = Some [] /\ ~ In "a" (target_keys self (Some y)) /\
  delay_features_step self X = Ok X /\
  exists out,
    transform self (Some X) (Some y) = Ok out /\
    nrows out = 3 /\ df_col out "a" = Some [NA; NA; NA].
Proof.
  intros X y self.
  assert (H1 : wf X) by (split; simpl; repeat constructor; simpl; tauto).
  assert (H2 : nrows X = 0) by reflexivity.
  assert (H3 : target_columns_produced self (Some y) = true) by reflexivity.
  assert (H4 : df_col X "a" = Some []) by reflexivity.
  assert (H5 : ~ In "a" (target_keys self (Some y))).
  { simpl. intuition discriminate. }
  repeat (split; [assumption|]).
  exact (rowless_table_takes_target_rows self X y "a" [] H1 H2 H3 H4 H5).
Defined.

(** X9: A target that has not one value per row: the result keeps the rows of
    the table.  The delayed target is cut at the last row of the table, and
    on the rows of the table past the end of [y] it is missing, also where
    the delayed row of [y] exists. *)
Theorem target_rows_follow_table self X (y : Series) t :
  wf X -> 0 < nrows X -> delay_target self = true ->
  (0 <= start_delay_for_target self <= t)%Z -> (t <= max_delay self)%Z ->
  exists out,
    transform self (Some X) (Some y) = Ok out /\
    nrows out = nrows X /\
    df_col out (target_name t)
    = Some (firstn (nrows X) (shift t y) ++ repeat NA (nrows X - length y)) /\
    (forall i, length y <= i < nrows X ->
       df_cell out (target_name t) i = Some NA) /\
    (forall i, i < nrows X -> i < length y ->
       df_cell out (target_name t) i = delayed_cell y t i).
Proof.
  intros HX Hpos Hdt Hst Ht.
  eexists. split; [now apply (transform_ok self (Some X))|]. simpl frame_of.
  pose proof (wf_features_frame self X HX) as H1.
  assert (HN : nrows (delay_target_step self (features_frame self X) (Some y))
               = nrows X).
  { rewrite nrows_delay_target_step, nrows_features_frame.
    destruct (Nat.ltb_spec 0 (nrows X)); [reflexivity | lia]. }
  assert (E : df_col (delay_target_step self (features_frame self X) (Some y))
                     (target_name t)
              = Some (reindex (nrows X) (shift t y))).
  { rewrite <- HN. apply df_col_delay_target_step_new; auto. lia. }
  split; [exact HN|]. split.
  - rewrite E. unfold reindex. now rewrite length_shift.
  - split; intros i Hi; unfold df_cell; rewrite E.
    + rewrite nth_error_reindex by lia. rewrite length_shift.
      destruct (Nat.ltb_spec i (length y)); [lia | reflexivity].
    + intros Hy. rewrite nth_error_reindex_same; rewrite ?length_shift; auto.
      apply nth_error_shift_cell; lia.
Qed.

Lemma target_rows_follow_table_witness :
  let X := mkDataFrame 3 [("a", vals [7; 8; 9]%Z)] in
  let self := init 1 true true 0 0 in
  wf X /\ 0 < nrows X /\ delay_target self = true /\
  (0 <= start_delay_for_target self <= 1)%Z /\ (1 <= max_delay self)%Z /\
  exists out,
    transform self (Some X) (Some (vals [1; 2]%Z)) = Ok out /\
    nrows out = 3 /\
    df_col out "target_delay_1" = Some [NA; Some 1%Z; NA].
Proof.
  intros X self.
  assert (H1 : wf X) by (split; simpl; repeat constructor; simpl; tauto).
  assert (H2 : 0 < nrows X) by (simpl; lia).
  assert (H3 : delay_target self = true) by reflexivity.
  assert (H4 : (0 <= start_delay_for_target self <= 1)%Z) by (simpl; lia).
  assert (H5 : (1 <= max_delay self)%Z) by (simpl; lia).
  repeat (split; [assumption|]).
  destruct (target_rows_follow_table self X (vals [1; 2]%Z) 1 H1 H2 H3 H4 H5)
    as (out & Ho & Hn & Hcol & _).
  exists out. split; [exact Ho|]. split; [exact Hn | exact Hcol].
Defined.

(** ** Configuration *)

(** X10: [gap] reaches [transform] through the test [gap == 0] alone: two
    transformers whose gaps are both zero or both non-zero, whatever their
    size or sign, return the same result. *)
Theorem gap_only_tested_for_zero md df dt g g' rs rs' X y :
  (g = 0%Z <-> g' = 0%Z) ->
  start_delay_for_target (init md df dt g rs)
  = start_delay_for_target (init md df dt g' rs') /\
  transform (init md df dt g rs) X y = transform (init md df dt g' rs') X y.
Proof.
  intros Hg.
  assert (E : (g =? 0)%Z = (g' =? 0)%Z).
  { destruct (Z.eqb_spec g 0), (Z.eqb_spec g' 0); tauto. }
  unfold init. rewrite E. split; reflexivity.
Qed.

Lemma gap_only_tested_for_zero_witness :
  (1%Z = 0%Z <-> (-7)%Z = 0%Z) /\
  transform (init 2 true true 1 0) None (Some (vals [1; 2; 3]%Z))
  = transform (init 2 true true (-7) 0) None (Some (vals [1; 2; 3]%Z)).
Proof.
  assert (H : 1%Z = 0%Z <-> (-7)%Z = 0%Z) by (split; discriminate).
  split; [exact H|].
  exact (proj2 (gap_only_tested_for_zero 2 true true 1 (-7) 0 0 None
                  (Some (vals [1; 2; 3]%Z)) H)).
Defined.

Lemma filter_all {A : Type} (f : A -> bool) (l : list A) :
  (forall x, In x l -> f x = true) -> filter f l = l.
Proof.
  induction l as [|x l IH]; intros H; simpl; auto.
  rewrite (H x) by (simpl; auto). f_equal. apply IH. intros; apply H; simpl; auto.
Qed.

Lemma is_named_spec k : is_named k = true <-> In k named_arguments.
Proof.
  unfold is_named. rewrite existsb_exists. split.
  - intros (x & Hx & E). apply String.eqb_eq in E. now subst.
  - intros H. exists k. split; auto. apply String.eqb_refl.
Qed.

Lemma parameters_fresh md df dt g kwargs :
  kwargs_ok kwargs ->
  parameters md df dt g kwargs
  = [("max_delay", PInt md); ("delay_target", PBool dt);
     ("delay_features", PBool df); ("gap", PInt g)] ++ kwargs.
Proof.
  intros [Hnd Hk]. unfold parameters. apply dict_update_fresh.
  assert (Hout : forall k, In k ["max_delay"; "delay_target"; "delay_features"; "gap"]
                           -> ~ In k (keys kwargs)).
  { intros k Hin Hin'. apply Hk in Hin'.
    assert (Hn : is_named k = true).
    { apply is_named_spec. simpl in *. tauto. }
    congruence. }
  simpl. repeat constructor; auto; simpl.
  - intros [E|[E|[E|H]]]; try discriminate E. revert H. apply Hout. simpl. tauto.
  - intros [E|[E|H]]; try discriminate E. revert H. apply Hout. simpl. tauto.
  - intros [E|H]; try discriminate E. revert H. apply Hout. simpl. tauto.
  - apply Hout. simpl. tauto.
Qed.

Lemma parameters_lookup md df dt g kwargs :
  kwargs_ok kwargs ->
  keys (parameters md df dt g kwargs)
  = ["max_delay"; "delay_target"; "delay_features"; "gap"] ++ keys kwargs /\
  dict_get (parameters md df dt g kwargs) "max_delay" = Some (PInt md) /\
  dict_get (parameters md df dt g kwargs) "delay_target" = Some (PBool dt) /\
  dict_get (parameters md df dt g kwargs) "delay_features" = Some (PBool df) /\
  dict_get (parameters md df dt g kwargs) "gap" = Some (PInt g) /\
  dict_get (parameters md df dt g kwargs) "random_state" = None /\
  (forall k, is_named k = false ->
     dict_get (parameters md df dt g kwargs) k = dict_get kwargs k).
Proof.
  intros Hok. rewrite (parameters_fresh md df dt g kwargs Hok).
  repeat split; try reflexivity.
  - simpl. apply dict_get_None. intros Hin. apply Hok in Hin. discriminate Hin.
  - intros k Hk. rewrite dict_get_app.
    assert (Hn : ~ In k named_arguments).
    { intros H. apply is_named_spec in H. congruence. }
    unfold named_arguments in Hn. cbn [In] in Hn. cbn [dict_get].
    repeat match goal with
           | |- context [String.eqb ?a k] =>
               destruct (String.eqb_spec a k); [subst k; tauto|]
           end.
    reflexivity.
Qed.

(** X11: What [__init__] records: the four named arguments under their names,
    in the order [max_delay], [delay_target], [delay_features], [gap],
    followed by the entries of [kwargs] untouched; [random_state] is not
    recorded, and no entry of [kwargs] replaces a named one. *)
Theorem parameters_recorded md df dt g kwargs :
  kwargs_ok kwargs ->
  keys (parameters md df dt g kwargs)
  = ["max_delay"; "delay_target"; "delay_features"; "gap"] ++ keys kwargs /\
  dict_get (parameters md df dt g kwargs) "max_delay" = Some (PInt md) /\
  dict_get (parameters md df dt g kwargs) "delay_target" = Some (PBool dt) /\
  dict_get (parameters md df dt g kwargs) "delay_features" = Some (PBool df) /\
  dict_get (parameters md df dt g kwargs) "gap" = Some (PInt g) /\
  dict_get (parameters md df dt g kwargs) "random_state" = None /\
  (forall k, is_named k = false ->
     dict_get (parameters md df dt g kwargs) k = dict_get kwargs k).
Proof. apply parameters_lookup. Qed.

Lemma parameters_recorded_witness :
  kwargs_ok [("note", PStr "x")] /\
  parameters 3 true false 1 [("note", PStr "x")]
  = [("max_delay", PInt 3); ("delay_target", PBool false);
     ("delay_features", PBool true); ("gap", PInt 1); ("note", PStr "x")] /\
  dict_get (parameters 3 true false 1 [("note", PStr "x")]) "random_state" = None.
Proof.
  assert (H : kwargs_ok [("note", PStr "x")]).
  { split; simpl.
    - repeat constructor. simpl. tauto.
    - intros k [<-|[]]. reflexivity. }
  split; [exact H|]. split; [reflexivity|].
  exact (proj1 (proj2 (proj2 (proj2 (proj2 (proj2
           (parameters_recorded 3 true false 1 [("note", PStr "x")] H))))))).
Defined.

(** X12: Building a transformer again from the parameters it recorded gives
    the same recorded parameters and a transformer that transforms alike,
    whatever seed it is given. *)
Theorem construct_from_parameters md df dt g rs rs' kwargs :
  kwargs_ok kwargs ->
  construct (parameters md df dt g kwargs) rs'
  = Some (init md df dt g rs', parameters md df dt g kwargs) /\
  forall X y,
    transform (init md df dt g rs') X y = transform (init md df dt g rs) X y.
Proof.
  intros Hok. split; [|reflexivity].
  destruct (parameters_lookup md df dt g kwargs Hok)
    as (_ & Hmd & Hdt & Hdf & Hg & Hrs & _).
  unfold construct, int_argument, bool_argument.
  rewrite Hrs, Hmd, Hdt, Hdf, Hg. do 2 f_equal.
  rewrite (parameters_fresh md df dt g kwargs Hok) at 1.
  rewrite filter_app. simpl. f_equal. apply filter_all.
  intros [k v] Hin. simpl. apply negb_true_iff. apply Hok.
  unfold keys. change k with (fst (k, v)). now apply in_map.
Qed.

Lemma construct_from_parameters_witness :
  kwargs_ok [("note", PStr "x")] /\
  construct (parameters 3 true false 0 [("note", PStr "x")]) 9
  = Some (init 3 true false 0 9,
          parameters 3 true false 0 [("note", PStr "x")]).
Proof.
  assert (H : kwargs_ok [("note", PStr "x")]).
  { split; simpl.
    - repeat constructor. simpl. tauto.
    - intros k [<-|[]]. reflexivity. }
  split; [exact H|].
  exact (proj1 (construct_from_parameters 3 true false 0 0 9
                  [("note", PStr "x")] H)).
Defined.

(** ** Chaining two transformers *)

(** X13: Feeding the result of one transformer to another, without target: the
    column [c_delay_t1_delay_t2] of the second result is column [c] of the
    first table delayed by [t1 + t2]. *)
Theorem chained_delays_add self1 self2 X c s t1 t2 :
  wf X -> df_empty X = false ->
  delay_features self1 = true -> delay_features self2 = true ->
  df_col X c = Some s ->
  (1 <= t1 <= max_delay self1)%Z -> (1 <= t2 <= max_delay self2)%Z ->
  exists out1 out2,
    transform self1 (Some X) None = Ok out1 /\
    transform self2 (Some out1) None = Ok out2 /\
    df_col out1 (feature_name c t1) = Some (shift t1 s) /\
    df_col out2 (feature_name (feature_name c t1) t2) = Some (shift (t1 + t2) s).
Proof.
  intros HX Hne Hdf1 Hdf2 Hc Ht1 Ht2.
  pose proof (wf_features_frame self1 X HX) as H1.
  assert (E1 : df_col (features_frame self1 X) (feature_name c t1)
               = Some (shift t1 s)).
  { now apply df_col_features_frame_new. }
  assert (Hne1 : df_empty (features_frame self1 X) = false).
  { unfold df_empty. rewrite nrows_features_frame.
    apply df_empty_false in Hne. destruct Hne as [Hpos _].
    apply orb_false_iff. split.
    - apply Nat.eqb_neq. lia.
    - apply Nat.eqb_neq. intros Hz. apply length_zero_iff_nil in Hz.
      unfold df_col in E1. rewrite Hz in E1. discriminate E1. }
  exists (features_frame self1 X),
         (features_frame self2 (features_frame self1 X)).
  split; [now rewrite (transform_ok self1 (Some X))|].
  split; [now rewrite (transform_ok self2 (Some (features_frame self1 X)))|].
  split; [exact E1|].
  rewrite (df_col_features_frame_new self2 _ (feature_name c t1) (shift t1 s) t2)
    by assumption.
  f_equal. apply shift_shift; lia.
Qed.

Lemma chained_delays_add_witness :
  let X := mkDataFrame 4 [("a", vals [1; 2; 3; 4]%Z)] in
  let self := init 1 true true 1 0 in
  wf X /\ df_empty X = false /\ delay_features self = true /\
  df_col X "a" = Some (vals [1; 2; 3; 4]%Z) /\
  (1 <= 1 <= max_delay self)%Z /\
  exists out1 out2,
    transform self (Some X) None = Ok out1 /\
    transform self (Some out1) None = Ok out2 /\
    df_col out2 "a_delay_1_delay_1" = Some [NA; NA; Some 1; Some 2]%Z.
Proof.
  intros X self.
  assert (H1 : wf X) by (split; simpl; repeat constructor; simpl; tauto).
  assert (H2 : df_empty X = false) by reflexivity.
  assert (H3 : delay_features self = true) by reflexivity.
  assert (H4 : df_col X "a" = Some (vals [1; 2; 3; 4]%Z)) by reflexivity.
  assert (H5 : (1 <= 1 <= max_delay self)%Z) by (simpl; lia).
  repeat (split; [assumption|]).
  destruct (chained_delays_add self self X "a" _ 1 1 H1 H2 H3 H3 H4 H5 H5)
    as (out1 & out2 & Ho1 & Ho2 & _ & Hcol).
  exists out1, out2. split; [exact Ho1|]. split; [exact Ho2 | exact Hcol].
Defined.

Lemma original_columns_kept_witness :
  let X := mkDataFrame 2 [("a", vals [5; 6]%Z)] in
  let y := Some (vals [1; 2]%Z) in
  let self := init 1 true true 1 0 in
  wf X /\ df_col X "a" = Some (vals [5; 6]%Z) /\
  ~ In "a" (assigned_names self X y) /\
  exists out,
    transform self (Some X) y = Ok out /\ df_col out "a" = Some (vals [5; 6]%Z).
Proof.
  intros X y self.
  assert (H1 : wf X) by (split; simpl; repeat constructor; simpl; tauto).
  assert (H2 : df_col X "a" = Some (vals [5; 6]%Z)) by reflexivity.
  assert (H3 : ~ In "a" (assigned_names self X y)).
  { simpl. intuition discriminate. }
  repeat (split; [assumption|]).
  destruct (original_columns_kept self X y "a" _ H1 H2 H3)
    as (out & Ho & _ & Hcol & _).
  exists out. split; [exact Ho|]. apply Hcol. simpl. lia.
Defined.

(** ** The returned table is a new object *)

(** X14: As soon as one of the two delay steps runs, the table [transform]
    returns is an object allocated during the call: its reference is none
    of those the store held before, so writing into the result later cannot
    reach the caller's table. *)
Theorem result_is_new_object self X y Xv yv (h h' : store) r :
  frame_at h X Xv -> series_at h y yv ->
  delay_features self && negb (df_empty (frame_of Xv)) = true \/
  (delay_target self = true /\ yv <> None) ->
  transform_refs self X y h = (Ok r, h') ->
  nth_error h r = None /\
  exists out,
    transform self Xv yv = Ok out /\
    nth_error h' r = Some (ODataFrame out).
Proof.
  intros HX Hy Hruns Hrun.
  destruct (transform_refs_run self X y Xv yv h HX Hy)
    as (l & r0 & E & Hout & Hfresh).
  rewrite Hrun in E.
  destruct (transform self Xv yv) as [out|e] eqn:Et; [|discriminate E].
  injection E as -> ->. split.
  - apply nth_error_None. now apply (Hfresh out).
  - exists out. split; [reflexivity|]. now apply Hout.
Qed.

Lemma result_is_new_object_witness :
  let Xv := mkDataFrame 2 [("a", vals [5; 6]%Z)] in
  let yv := vals [1; 2]%Z in
  let h := [ODataFrame Xv; OSeries yv] in
  let self := init 1 true true 1 0 in
  frame_at h (Some 0) (Some Xv) /\ series_at h (Some 1) (Some yv) /\
  fst (transform_refs self (Some 0) (Some 1) h) = Ok 3 /\
  nth_error h 3 = None.
Proof.
  intros Xv yv h self.
  assert (H1 : frame_at h (Some 0) (Some Xv)) by reflexivity.
  assert (H2 : series_at h (Some 1) (Some yv)) by reflexivity.
  repeat (split; [assumption|]). split; [reflexivity|].
  refine (proj1 (result_is_new_object self (Some 0) (Some 1) (Some Xv) (Some yv)
                   h (snd (transform_refs self (Some 0) (Some 1) h)) 3
                   H1 H2 _ _)).
  - left. reflexivity.
  - reflexivity.
Defined.

(** ** When nothing is delayed *)

(** X15: [transform] hands the table back unchanged as soon as neither step has
    a delay to store: the feature step is off, or the table has no rows or
    no columns, or [max_delay < 1]; and the target step is off, or there is
    no target, or [max_delay] is below the first target delay (as with
    [max_delay = 0] and [gap = 0]). *)
Theorem transform_returns_table_unchanged self X y :
  wf_opt X ->
  delay_features self = false \/ df_empty (frame_of X) = true \/
    (max_delay self < 1)%Z ->
  delay_target self = false \/ y = None \/
    (max_delay self < start_delay_for_target self)%Z ->
  transform self X y = Ok (frame_of X).
Proof.
  intros HX Hf Ht. rewrite transform_ok by exact HX. f_equal.
  assert (E : features_frame self (frame_of X) = frame_of X).
  { unfold features_frame.
    destruct (delay_features self && negb (df_empty (frame_of X))) eqn:Hc; auto.
    apply andb_true_iff in Hc. destruct Hc as [Hdf Hne].
    apply negb_true_iff in Hne.
    destruct Hf as [Hf|[Hf|Hf]]; try congruence.
    unfold feature_pairs. rewrite range_nil by lia. reflexivity. }
  rewrite E. apply delay_target_step_skip.
  unfold target_columns_produced. destruct y as [y'|]; auto.
  destruct Ht as [Ht|[Ht|Ht]]; try discriminate.
  - now rewrite Ht.
  - apply andb_false_iff. right. now apply Z.leb_gt.
Qed.

Lemma transform_returns_table_unchanged_witness :
  let X := Some (mkDataFrame 2 [("a", vals [5; 6]%Z)]) in
  let self := init 0 true true 0 0 in
  wf_opt X /\ (max_delay self < 1)%Z /\
  (max_delay self < start_delay_for_target self)%Z /\
  transform self X (Some (vals [1; 2]%Z)) = Ok (frame_of X).
Proof.
  intros X self.
  assert (H1 : wf_opt X) by (split; simpl; repeat constructor; simpl; tauto).
  assert (H2 : (max_delay self < 1)%Z) by (simpl; lia).
  assert (H3 : (max_delay self < start_delay_for_target self)%Z) by (simpl; lia).
  repeat (split; [assumption|]).
  apply (transform_returns_table_unchanged self X (Some (vals [1; 2]%Z)) H1).
  - right. right. exact H2.
  - right. right. exact H3.
Defined.
